(** * PolyStrips: strip detection and handle dragging

    A shallow embedding of [retopoflow/rftool_polystrips/polystrips.py]:
    the target-change handler [update_target] (junction classification,
    strip extraction, strip cap), [update_strip_viz], the hover computation of
    the [main] state, and the [move handle] state ([movehandle_enter],
    [modal_handle]).

    Mesh elements and Python objects are identified by natural-number
    handles.  The host mesh, the helpers of [polystrips_utils] and the
    view/geometry queries of [rfcontext] are not part of the file under
    study; they form the [Host] interface below. *)

From Stdlib Require Import ZArith Lia.
From stdpp Require Import base strings gmap list functions.

Local Open Scope Z_scope.
Local Open Scope nat_scope.

Abbreviation Face := nat (only parsing).
Abbreviation Edge := nat (only parsing).
Abbreviation Vert := nat (only parsing).
(** A reference to a [Point] object (a bezier control point). *)
Abbreviation Ref := nat (only parsing).

(** ** Python exceptions and the error monad *)

Inductive exn : Set :=
| ValueError          (* tuple unpacking of the wrong length *)
| IndexError          (* [l[-1]] on an empty list *)
| TypeError           (* arithmetic on [None] *)
| ZeroDivisionError.  (* float division by zero *)

Inductive result (A : Type) : Type :=
| Ok (a : A)
| Raise (e : exn).
Arguments Ok {A} a.
Arguments Raise {A} e.

#[global] Instance result_ret : MRet result := λ A a, Ok a.
#[global] Instance result_bind : MBind result := λ A B k m,
  match m with
  | Ok a => k a
  | Raise e => Raise e
  end.

(** Monadic left fold: a [for] loop whose body may raise. *)
Fixpoint foldM {A B} (f : A → B → result A) (l : list B) (a : A) : result A :=
  match l with
  | [] => Ok a
  | b :: l' => a' ← f a b; foldM f l' a'
  end.

(** [a, b, c, d = l] *)
Definition unpack4 {A} (l : list A) : result (A * A * A * A) :=
  match l with
  | [a; b; c; d] => Ok (a, b, c, d)
  | _ => Raise ValueError
  end.

(** [l[-1]], with [None] for the empty list. *)
Fixpoint list_last {A} (l : list A) : option A :=
  match l with
  | [] => None
  | [a] => Some a
  | _ :: l' => list_last l'
  end.

(** ** Iteration over a Python [set]

    A [for] loop over a set (or repeated [pop]) visits every element
    exactly once, in an order the language does not fix. *)

Record SetOrder (A : Type) `{Countable A} : Type := {
  iter_set : gset A → list A;
  iter_set_perm : ∀ X, iter_set X ≡ₚ elements X
}.
Arguments iter_set {A _ _} _ _.
Arguments iter_set_perm {A _ _} _ _.

Definition elements_order (A : Type) `{Countable A} : SetOrder A :=
  {| iter_set := elements; iter_set_perm := λ X, reflexivity (elements X) |}.

(** ** Calls to the host that the tool makes *)

Inductive Event (P2 : Type) : Type :=
| EvRaycast (p : P2)          (* rfcontext.raycast_sources_Point2D(p) *)
| EvCapture (strip : nat)     (* strip.capture_edges() *)
| EvUpdate (strip : nat)      (* strip.update(...) *)
| EvUndoPush (label : string) (* rfcontext.undo_push(label) *)
| EvUndoCancel                (* rfcontext.undo_cancel() *)
| EvCursor (name : string).   (* Cursors.set(name) *)
Arguments EvRaycast {P2} p.
Arguments EvCapture {P2} strip.
Arguments EvUpdate {P2} strip.
Arguments EvUndoPush {P2} label.
Arguments EvUndoCancel {P2}.
Arguments EvCursor {P2} name.

Section PolyStrips.

Context {Key : Type} `{Countable Key}.
Context {Pos P2 Num Vec Ray : Type}.

(** ** The host interface

    Everything the file imports or reaches through [self.rfcontext]:
    mesh topology, the helpers of [polystrips_utils], the bezier and
    vector arithmetic of [addon_common], the view queries, and the
    orders in which the sets of the handlers are iterated.  Coordinates
    and lengths are floats in the source; here their types are
    parameters, and so are the operations on them. *)

Record Host : Type := {
  (* BMesh topology *)
  verts : Face → list Vert;                    (* bmf.verts *)
  edges : Face → list Edge;                    (* bmf.edges *)
  neighbor_edges : Face → Edge → list Edge;    (* bmf.neighbor_edges(bme) *)
  (* polystrips_utils *)
  is_boundaryvert : Vert → gset Face → bool;
  is_boundaryedge : Edge → gset Face → bool;
  crawl_strip : Face → Edge → gset Face → gset Face → option (list Face);
  hash_face_pair : Face → Face → Key;
  (* RFTool_PolyStrips_Strip(strip): the four control points fitted to a chain *)
  strip_curve : list Face → Pos * Pos * Pos * Pos;
  (* CubicBezier.eval(i/10), given the four control points *)
  bezier_eval : Pos * Pos * Pos * Pos → nat → Pos;
  (* Point == Point (mathutils.Vector comparison) *)
  pos_eqb : Pos → Pos → bool;
  (* Vec2D arithmetic and float comparisons *)
  vec2_add : P2 → P2 → P2;
  vec2_sub : P2 → P2 → P2;
  vec2_length : P2 → Num;
  num_gtb : Num → Num → bool;                  (* a > b *)
  num_is_zero : Num → bool;                    (* a == 0 *)
  num_div : Num → Num → option Num;            (* a / b, None when it raises *)
  (* rfcontext view queries *)
  Point_to_Point2D : Pos → option P2;
  Point2D_to_Vec : P2 → Vec;
  Point2D_to_Ray : P2 → Ray;
  Point_to_depth : Pos → Num;
  raycast_sources_Point2D : P2 → option Pos;
  ray_d : Ray → Vec;                           (* nr.d *)
  ray_eval : Ray → Num → Pos;                  (* nr.eval(t) *)
  vec_dot : Vec → Vec → Num;                   (* ov.dot(v) *)
  drawing_scale : Num → Num;                   (* self.drawing.scale(x) *)
  (* iteration orders of Python sets *)
  order_quads : SetOrder nat;                  (* for bmf in bmquads *)
  order_boundaries : SetOrder (nat * nat);     (* boundaries.pop() *)
  order_junctions : SetOrder nat;              (* for bmf0 in junctions *)
  order_strips : SetOrder nat                  (* for strip in <set of strips> *)
}.

(** ** Tool state *)

(** A [RFTool_PolyStrips_Strip]: its object identity, the face chain it
    wraps and the four [Point] objects of its curve. *)
Record Strip : Type := {
  strip_id : nat;
  strip_faces : list Face;
  curve : Ref * Ref * Ref * Ref
}.

(** [strip.curve.points()], also the order in which the curve iterates. *)
Definition curve_points (st : Strip) : list Ref :=
  let '(p0, p1, p2, p3) := curve st in [p0; p1; p2; p3].

(** An entry of [self.sel_cbpts]: [(cbpt, inner, oco, oco2D)]. *)
Record SelPt : Type := {
  sel_cbpt : Ref;
  sel_inner : bool;
  sel_oco : Pos;
  sel_oco2D : option P2
}.

(** The attributes of the tool object, the store of [Point] objects
    ([heap]: the [xyz] of every control point), the allocation counter for
    object identities and the log of host calls.  A set of strip objects
    is the set of their identities; [fsm_state] is [self._fsm.state],
    which the FSM assigns from the state names the handlers return. *)
Record Tool : Type := {
  fsm_state : string;
  strips : list Strip;
  strip_pts : list (list Pos);
  hovering_strips : gset nat;
  hovering_handles : list Ref;
  sel_cbpts : list SelPt;
  mod_strips : gset nat;
  mousedown : P2;
  mouselast : P2;
  rfwidget : string;
  move_done_pressed : string;
  move_done_released : string;
  move_cancelled : string;
  heap : Ref → Pos;
  next_obj : nat;
  log : list (Event P2)
}.

(** Attribute assignment [self.x = v]. *)

Definition set_fsm_state (v : string) (s : Tool) : Tool :=
  {| fsm_state := v;
     strips := strips s;
     strip_pts := strip_pts s;
     hovering_strips := hovering_strips s;
     hovering_handles := hovering_handles s;
     sel_cbpts := sel_cbpts s;
     mod_strips := mod_strips s;
     mousedown := mousedown s;
     mouselast := mouselast s;
     rfwidget := rfwidget s;
     move_done_pressed := move_done_pressed s;
     move_done_released := move_done_released s;
     move_cancelled := move_cancelled s;
     heap := heap s;
     next_obj := next_obj s;
     log := log s |}.

Definition set_strips (v : list Strip) (s : Tool) : Tool :=
  {| fsm_state := fsm_state s;
     strips := v;
     strip_pts := strip_pts s;
     hovering_strips := hovering_strips s;
     hovering_handles := hovering_handles s;
     sel_cbpts := sel_cbpts s;
     mod_strips := mod_strips s;
     mousedown := mousedown s;
     mouselast := mouselast s;
     rfwidget := rfwidget s;
     move_done_pressed := move_done_pressed s;
     move_done_released := move_done_released s;
     move_cancelled := move_cancelled s;
     heap := heap s;
     next_obj := next_obj s;
     log := log s |}.

Definition set_strip_pts (v : list (list Pos)) (s : Tool) : Tool :=
  {| fsm_state := fsm_state s;
     strips := strips s;
     strip_pts := v;
     hovering_strips := hovering_strips s;
     hovering_handles := hovering_handles s;
     sel_cbpts := sel_cbpts s;
     mod_strips := mod_strips s;
     mousedown := mousedown s;
     mouselast := mouselast s;
     rfwidget := rfwidget s;
     move_done_pressed := move_done_pressed s;
     move_done_released := move_done_released s;
     move_cancelled := move_cancelled s;
     heap := heap s;
     next_obj := next_obj s;
     log := log s |}.

Definition set_hovering_strips (v : gset nat) (s : Tool) : Tool :=
  {| fsm_state := fsm_state s;
     strips := strips s;
     strip_pts := strip_pts s;
     hovering_strips := v;
     hovering_handles := hovering_handles s;
     sel_cbpts := sel_cbpts s;
     mod_strips := mod_strips s;
     mousedown := mousedown s;
     mouselast := mouselast s;
     rfwidget := rfwidget s;
     move_done_pressed := move_done_pressed s;
     move_done_released := move_done_released s;
     move_cancelled := move_cancelled s;
     heap := heap s;
     next_obj := next_obj s;
     log := log s |}.

Definition set_hovering_handles (v : list Ref) (s : Tool) : Tool :=
  {| fsm_state := fsm_state s;
     strips := strips s;
     strip_pts := strip_pts s;
     hovering_strips := hovering_strips s;
     hovering_handles := v;
     sel_cbpts := sel_cbpts s;
     mod_strips := mod_strips s;
     mousedown := mousedown s;
     mouselast := mouselast s;
     rfwidget := rfwidget s;
     move_done_pressed := move_done_pressed s;
     move_done_released := move_done_released s;
     move_cancelled := move_cancelled s;
     heap := heap s;
     next_obj := next_obj s;
     log := log s |}.

Definition set_sel_cbpts (v : list SelPt) (s : Tool) : Tool :=
  {| fsm_state := fsm_state s;
     strips := strips s;
     strip_pts := strip_pts s;
     hovering_strips := hovering_strips s;
     hovering_handles := hovering_handles s;
     sel_cbpts := v;
     mod_strips := mod_strips s;
     mousedown := mousedown s;
     mouselast := mouselast s;
     rfwidget := rfwidget s;
     move_done_pressed := move_done_pressed s;
     move_done_released := move_done_released s;
     move_cancelled := move_cancelled s;
     heap := heap s;
     next_obj := next_obj s;
     log := log s |}.

Definition set_mod_strips (v : gset nat) (s : Tool) : Tool :=
  {| fsm_state := fsm_state s;
     strips := strips s;
     strip_pts := strip_pts s;
     hovering_strips := hovering_strips s;
     hovering_handles := hovering_handles s;
     sel_cbpts := sel_cbpts s;
     mod_strips := v;
     mousedown := mousedown s;
     mouselast := mouselast s;
     rfwidget := rfwidget s;
     move_done_pressed := move_done_pressed s;
     move_done_released := move_done_released s;
     move_cancelled := move_cancelled s;
     heap := heap s;
     next_obj := next_obj s;
     log := log s |}.

Definition set_mousedown (v : P2) (s : Tool) : Tool :=
  {| fsm_state := fsm_state s;
     strips := strips s;
     strip_pts := strip_pts s;
     hovering_strips := hovering_strips s;
     hovering_handles := hovering_handles s;
     sel_cbpts := sel_cbpts s;
     mod_strips := mod_strips s;
     mousedown := v;
     mouselast := mouselast s;
     rfwidget := rfwidget s;
     move_done_pressed := move_done_pressed s;
     move_done_released := move_done_released s;
     move_cancelled := move_cancelled s;
     heap := heap s;
     next_obj := next_obj s;
     log := log s |}.

Definition set_mouselast (v : P2) (s : Tool) : Tool :=
  {| fsm_state := fsm_state s;
     strips := strips s;
     strip_pts := strip_pts s;
     hovering_strips := hovering_strips s;
     hovering_handles := hovering_handles s;
     sel_cbpts := sel_cbpts s;
     mod_strips := mod_strips s;
     mousedown := mousedown s;
     mouselast := v;
     rfwidget := rfwidget s;
     move_done_pressed := move_done_pressed s;
     move_done_released := move_done_released s;
     move_cancelled := move_cancelled s;
     heap := heap s;
     next_obj := next_obj s;
     log := log s |}.

Definition set_rfwidget (v : string) (s : Tool) : Tool :=
  {| fsm_state := fsm_state s;
     strips := strips s;
     strip_pts := strip_pts s;
     hovering_strips := hovering_strips s;
     hovering_handles := hovering_handles s;
     sel_cbpts := sel_cbpts s;
     mod_strips := mod_strips s;
     mousedown := mousedown s;
     mouselast := mouselast s;
     rfwidget := v;
     move_done_pressed := move_done_pressed s;
     move_done_released := move_done_released s;
     move_cancelled := move_cancelled s;
     heap := heap s;
     next_obj := next_obj s;
     log := log s |}.

Definition set_move_done_pressed (v : string) (s : Tool) : Tool :=
  {| fsm_state := fsm_state s;
     strips := strips s;
     strip_pts := strip_pts s;
     hovering_strips := hovering_strips s;
     hovering_handles := hovering_handles s;
     sel_cbpts := sel_cbpts s;
     mod_strips := mod_strips s;
     mousedown := mousedown s;
     mouselast := mouselast s;
     rfwidget := rfwidget s;
     move_done_pressed := v;
     move_done_released := move_done_released s;
     move_cancelled := move_cancelled s;
     heap := heap s;
     next_obj := next_obj s;
     log := log s |}.

Definition set_move_done_released (v : string) (s : Tool) : Tool :=
  {| fsm_state := fsm_state s;
     strips := strips s;
     strip_pts := strip_pts s;
     hovering_strips := hovering_strips s;
     hovering_handles := hovering_handles s;
     sel_cbpts := sel_cbpts s;
     mod_strips := mod_strips s;
     mousedown := mousedown s;
     mouselast := mouselast s;
     rfwidget := rfwidget s;
     move_done_pressed := move_done_pressed s;
     move_done_released := v;
     move_cancelled := move_cancelled s;
     heap := heap s;
     next_obj := next_obj s;
     log := log s |}.

Definition set_move_cancelled (v : string) (s : Tool) : Tool :=
  {| fsm_state := fsm_state s;
     strips := strips s;
     strip_pts := strip_pts s;
     hovering_strips := hovering_strips s;
     hovering_handles := hovering_handles s;
     sel_cbpts := sel_cbpts s;
     mod_strips := mod_strips s;
     mousedown := mousedown s;
     mouselast := mouselast s;
     rfwidget := rfwidget s;
     move_done_pressed := move_done_pressed s;
     move_done_released := move_done_released s;
     move_cancelled := v;
     heap := heap s;
     next_obj := next_obj s;
     log := log s |}.

Definition set_heap (v : Ref → Pos) (s : Tool) : Tool :=
  {| fsm_state := fsm_state s;
     strips := strips s;
     strip_pts := strip_pts s;
     hovering_strips := hovering_strips s;
     hovering_handles := hovering_handles s;
     sel_cbpts := sel_cbpts s;
     mod_strips := mod_strips s;
     mousedown := mousedown s;
     mouselast := mouselast s;
     rfwidget := rfwidget s;
     move_done_pressed := move_done_pressed s;
     move_done_released := move_done_released s;
     move_cancelled := move_cancelled s;
     heap := v;
     next_obj := next_obj s;
     log := log s |}.

Definition set_next_obj (v : nat) (s : Tool) : Tool :=
  {| fsm_state := fsm_state s;
     strips := strips s;
     strip_pts := strip_pts s;
     hovering_strips := hovering_strips s;
     hovering_handles := hovering_handles s;
     sel_cbpts := sel_cbpts s;
     mod_strips := mod_strips s;
     mousedown := mousedown s;
     mouselast := mouselast s;
     rfwidget := rfwidget s;
     move_done_pressed := move_done_pressed s;
     move_done_released := move_done_released s;
     move_cancelled := move_cancelled s;
     heap := heap s;
     next_obj := v;
     log := log s |}.

Definition set_log (v : list (Event P2)) (s : Tool) : Tool :=
  {| fsm_state := fsm_state s;
     strips := strips s;
     strip_pts := strip_pts s;
     hovering_strips := hovering_strips s;
     hovering_handles := hovering_handles s;
     sel_cbpts := sel_cbpts s;
     mod_strips := mod_strips s;
     mousedown := mousedown s;
     mouselast := mouselast s;
     rfwidget := rfwidget s;
     move_done_pressed := move_done_pressed s;
     move_done_released := move_done_released s;
     move_cancelled := move_cancelled s;
     heap := heap s;
     next_obj := next_obj s;
     log := v |}.

(** ** [update_target]: strip detection *)

Section Detection.

Variable host : Host.

(** [set(bmf for bmf in selected if len(bmf.verts) == 4)] *)
Definition quads_of (selected : gset Face) : gset Face :=
  filter (λ bmf, length (verts host bmf) = 4) selected.

(** The body of the first loop, for one face: a face with no vertex on
    the selection boundary is skipped, a face whose boundary edges lie in
    one opposing pair only is skipped, any other face is added. *)
Definition first_pass_face (bmquads : gset Face) (junctions : gset Face)
    (bmf : Face) : result (gset Face) :=
  if negb (existsb (λ bmv, is_boundaryvert host bmv bmquads) (verts host bmf))
  then Ok junctions
  else
    '(edge0, edge1, edge2, edge3) ←
       unpack4 (map (λ bme, is_boundaryedge host bme bmquads) (edges host bmf));
    if (edge0 || edge2) && negb (edge1 || edge3) then Ok junctions
    else if (edge1 || edge3) && negb (edge0 || edge2) then Ok junctions
    else Ok ({[bmf]} ∪ junctions).

(** "find junctions at corners" *)
Definition first_pass (bmquads : gset Face) : result (gset Face) :=
  foldM (first_pass_face bmquads) (iter_set (order_quads host) bmquads) ∅.

(** [set((bme,bmf) for bmf in bmquads for bme in bmf.edges
         if is_boundaryedge(bme, bmquads))] *)
Definition boundaries_of (bmquads : gset Face) : gset (Edge * Face) :=
  list_to_set
    (flat_map
       (λ bmf, map (λ bme, (bme, bmf))
                 (List.filter (λ bme, is_boundaryedge host bme bmquads)
                    (edges host bmf)))
       (elements bmquads)).

(** The body of the inner [for bme_ in bmf.neighbor_edges(bme)] loop. *)
Definition second_pass_edge (bmquads : gset Face) (bmf : Face)
    (junctions : gset Face) (bme_ : Edge) : result (gset Face) :=
  match crawl_strip host bmf bme_ bmquads junctions with
  | None => Ok junctions
  | Some strip =>
      match list_last strip with
      | None => Raise IndexError
      | Some bmf1 => Ok ({[bmf1]} ∪ junctions)
      end
  end.

(** The body of the [while boundaries] loop, for the popped pair. *)
Definition second_pass_boundary (bmquads : gset Face) (junctions : gset Face)
    (popped : Edge * Face) : result (gset Face) :=
  let '(bme, bmf) := popped in
  foldM (second_pass_edge bmquads bmf) (neighbor_edges host bmf bme) junctions.

(** "find junctions that might be in middle of strip but are ends to
    other strips" *)
Definition second_pass (bmquads : gset Face) (junctions : gset Face)
    : result (gset Face) :=
  foldM (second_pass_boundary bmquads)
    (iter_set (order_boundaries host) (boundaries_of bmquads)) junctions.

(** [RFTool_PolyStrips_Strip(strip)] followed by [self.strips.append]:
    a new strip object with four new control points. *)
Definition append_strip (strip : list Face) (s : Tool) : Tool :=
  let n := next_obj s in
  let '(c0, c1, c2, c3) := strip_curve host strip in
  let st := {| strip_id := n; strip_faces := strip;
               curve := (n + 1, n + 2, n + 3, n + 4) |} in
  set_strips (strips s ++ [st])
    (set_heap (<[n + 4 := c3]> (<[n + 3 := c2]> (<[n + 2 := c1]>
                 (<[n + 1 := c0]> (heap s)))))
       (set_next_obj (n + 5) s)).

(** The local function [add_strip(bme)] of the third loop, closed over
    [bmf0], [bmquads], [junctions], [touched] and [self]. *)
Definition add_strip (bmquads junctions : gset Face) (bmf0 : Face) (bme : Edge)
    (st : gset Key * Tool) : gset Key * Tool :=
  let '(touched, s) := st in
  match crawl_strip host bmf0 bme bmquads junctions with
  | None => st
  | Some strip =>
      match list_last strip with
      | None => st
      | Some bmf1 =>
          if (1 <? length strip)
             && negb (bool_decide (hash_face_pair host bmf0 bmf1 ∈ touched))
          then ({[hash_face_pair host bmf1 bmf0]}
                  ∪ ({[hash_face_pair host bmf0 bmf1]} ∪ touched),
                append_strip strip s)
          else st
      end
  end.

(** The four guarded calls [if not edgeN: add_strip(bmeN)] for one
    junction, after the two unpackings at the head of the loop body. *)
Definition junction_strips (bmquads junctions : gset Face) (bmf0 : Face)
    (st : gset Key * Tool) : result (gset Key * Tool) :=
  '(bme0, bme1, bme2, bme3) ← unpack4 (edges host bmf0);
  '(edge0, edge1, edge2, edge3) ←
     unpack4 (map (λ bme, is_boundaryedge host bme bmquads) (edges host bmf0));
  let add (edge : bool) (bme : Edge) st :=
    if edge then st else add_strip bmquads junctions bmf0 bme st in
  Ok (add edge3 bme3 (add edge2 bme2 (add edge1 bme1 (add edge0 bme0 st)))).

(** [options['polystrips max strips'] and
     len(self.strips) > options['polystrips max strips']] *)
Definition over_cap (max_strips : Z) (s : Tool) : bool :=
  negb (max_strips =? 0)%Z && (max_strips <? Z.of_nat (length (strips s)))%Z.

(** "find strips between junctions": the third loop, over the junctions
    in iteration order [js], with its [break].  The second component is
    the exception that ended the loop, if any. *)
Fixpoint extract_strips (max_strips : Z) (bmquads junctions : gset Face)
    (js : list Face) (st : gset Key * Tool) : Tool * option exn :=
  match js with
  | [] => (st.2, None)
  | bmf0 :: js' =>
      match junction_strips bmquads junctions bmf0 st with
      | Raise e => (st.2, Some e)
      | Ok st' =>
          if over_cap max_strips st'.2 then (set_strips [] st'.2, None)
          else extract_strips max_strips bmquads junctions js' st'
      end
  end.

(** [update_strip_viz]: eleven samples of every strip's curve. *)
Definition curve_samples (s : Tool) (st : Strip) : list Pos :=
  let '(p0, p1, p2, p3) := curve st in
  map (bezier_eval host (heap s p0, heap s p1, heap s p2, heap s p3))
    (seq 0 (10 + 1)).

Definition update_strip_viz (s : Tool) : Tool :=
  set_strip_pts (map (curve_samples s) (strips s)) s.

(** [update_target], given the option ['polystrips max strips'] and the
    faces [rfcontext.get_selected_faces()] returns.  The result is the
    tool state when the handler ends and the exception it ended with, if
    any. *)
Definition update_target (max_strips : Z) (selected : gset Face) (s : Tool)
    : Tool * option exn :=
  if String.eqb (fsm_state s) "move handle" then (s, None)
  else
    let s := set_strips [] s in
    let bmquads := quads_of selected in
    if decide (bmquads = ∅) then (s, None)
    else
      match junctions ← first_pass bmquads; second_pass bmquads junctions with
      | Raise e => (s, Some e)
      | Ok junctions =>
          match extract_strips max_strips bmquads junctions
                  (iter_set (order_junctions host) junctions) (∅, s) with
          | (s', Some e) => (s', Some e)
          | (s', None) => (update_strip_viz s', None)
          end
      end.

End Detection.

(** ** The [main] and [move handle] states *)

(** What [self.rfcontext.actions] reports in one tick, and the state name
    [rfcontext.setup_selection_painting(...)] would return. *)
Record Actions : Type := {
  mouse : P2;
  ctrl : bool;
  shift : bool;
  pressed : string → bool;
  released : string → bool;
  selection_painting : option string
}.

Section Interaction.

Variable host : Host.

Definition log_event (ev : Event P2) (s : Tool) : Tool :=
  set_log (log s ++ [ev]) s.

(** [cbpt in l] for a list of [Point] objects: identity or [==]. *)
Definition point_in (s : Tool) (cbpt : Ref) (l : list Ref) : bool :=
  existsb (λ q, (q =? cbpt) || pos_eqb host (heap s q) (heap s cbpt)) l.

(** The innermost body of the hover loop of [main], for one control
    point of the strip with identity [sid]. *)
Definition hover_point (select_dist : Num) (a : Actions) (s : Tool) (sid : nat)
    (acc : list Ref * gset nat) (cbpt : Ref) : list Ref * gset nat :=
  match Point_to_Point2D host (heap s cbpt) with
  | None => acc
  | Some v =>
      if num_gtb host (vec2_length host (vec2_sub host (mouse a) v))
           (drawing_scale host select_dist)
      then acc
      else (acc.1 ++ [cbpt], {[sid]} ∪ acc.2)
  end.

Definition hover_strip (select_dist : Num) (a : Actions) (s : Tool)
    (acc : list Ref * gset nat) (st : Strip) : list Ref * gset nat :=
  fold_left (hover_point select_dist a s (strip_id st)) (curve_points st) acc.

(** [hovering_handles] and [hovering_strips] as [main] recomputes them. *)
Definition hover (select_dist : Num) (a : Actions) (s : Tool)
    : list Ref * gset nat :=
  fold_left (hover_strip select_dist a s) (strips s) ([], ∅).

Definition nonempty {A} (l : list A) : bool :=
  match l with [] => false | _ => true end.

(** The [main] state: the new tool state and the state name returned
    ([None] when the function falls off its end).  The assignment of
    [self.vis_accel] and the [print] are left out. *)
Definition main (select_dist : Num) (a : Actions) (s : Tool)
    : Tool * option string :=
  let '(handles, hstrips) := hover select_dist a s in
  let s := set_hovering_strips hstrips (set_hovering_handles handles s) in
  let s :=
    if ctrl a && negb (shift a)
    then log_event (EvCursor "CROSSHAIR") (set_rfwidget "brushstroke" s)
    else if nonempty handles
    then log_event (EvCursor "HAND") (set_rfwidget "move" s)
    else log_event (EvCursor "CROSSHAIR") (set_rfwidget "brushstroke" s) in
  if nonempty handles && pressed a "action" then (s, Some "move handle")
  else if nonempty handles && pressed a "action alt0" then (s, Some "rotate")
  else if nonempty handles && pressed a "action alt1" then (s, Some "scale")
  else if pressed a "select" || pressed a "select add"
  then (s, selection_painting a)
  else (s, None).

Definition movehandle_canenter (s : Tool) : bool :=
  0 <? length (hovering_handles s).

(** The body of [for strip in self.strips] in [movehandle_enter]: the
    accumulator is the local list [cbpts] and [self.mod_strips]. *)
Definition enter_strip (s : Tool) (acc : list Ref * gset nat) (st : Strip)
    : list Ref * gset nat :=
  let '(p0, p1, p2, p3) := curve st in
  let acc :=
    if point_in s p0 acc.1 && negb (point_in s p1 acc.1)
    then (acc.1 ++ [p1], {[strip_id st]} ∪ acc.2) else acc in
  if point_in s p3 acc.1 && negb (point_in s p2 acc.1)
  then (acc.1 ++ [p2], {[strip_id st]} ∪ acc.2) else acc.

(** [[p for strip in self.strips for p in strip.curve.points()[1:3]]] *)
Definition inners_of (s : Tool) : list Ref :=
  flat_map (λ st, let '(p0, p1, p2, p3) := curve st in [p1; p2]) (strips s).

Definition snapshot (s : Tool) (inners : list Ref) (cbpt : Ref) : SelPt :=
  {| sel_cbpt := cbpt;
     sel_inner := point_in s cbpt inners;
     sel_oco := heap s cbpt;
     sel_oco2D := Point_to_Point2D host (heap s cbpt) |}.

Definition movehandle_enter (a : Actions) (s : Tool) : Tool :=
  let '(cbpts, mods) :=
    fold_left (enter_strip s) (strips s)
      (hovering_handles s, ∅ ∪ hovering_strips s) in
  let s1 :=
    fold_left (λ s sid, log_event (EvCapture sid) s)
      (iter_set (order_strips host) mods) (set_mod_strips mods s) in
  let inners := inners_of s1 in
  let s2 := set_sel_cbpts (map (snapshot s1 inners) cbpts) s1 in
  let s3 := set_mouselast (mouse a) (set_mousedown (mouse a) s2) in
  let s4 := set_rfwidget "move" s3 in
  let s5 :=
    set_move_cancelled "cancel"
      (set_move_done_released "action" (set_move_done_pressed "confirm" s4)) in
  log_event (EvUndoPush "manipulate bezier") s5.

(** The body of [for cbpt,inner,oco,oco2D in self.sel_cbpts].
    [oco2D + delta] raises when the snapshot [oco2D] is [None]; a raycast
    hit is a [Point], which is true in [if xyz]; the float division
    raises on a zero divisor. *)
Definition move_cbpt (delta : P2) (s : Tool) (e : SelPt) : result Tool :=
  match sel_oco2D e with
  | None => Raise TypeError
  | Some oco2D =>
      let nco2D := vec2_add host oco2D delta in
      if negb (sel_inner e) then
        let s := log_event (EvRaycast nco2D) s in
        match raycast_sources_Point2D host nco2D with
        | Some xyz => Ok (set_heap (<[sel_cbpt e := xyz]> (heap s)) s)
        | None => Ok s
        end
      else
        let ov := Point2D_to_Vec host oco2D in
        let nr := Point2D_to_Ray host nco2D in
        let od := Point_to_depth host (sel_oco e) in
        match num_div host od (vec_dot host ov (ray_d host nr)) with
        | None => Raise ZeroDivisionError
        | Some t => Ok (set_heap (<[sel_cbpt e := ray_eval host nr t]> (heap s)) s)
        end
  end.

(** The loop over [self.sel_cbpts]; an exception leaves the points moved
    so far where they are. *)
Fixpoint move_cbpts (delta : P2) (l : list SelPt) (s : Tool)
    : Tool * option exn :=
  match l with
  | [] => (s, None)
  | e :: l' =>
      match move_cbpt delta s e with
      | Raise x => (s, Some x)
      | Ok s' => move_cbpts delta l' s'
      end
  end.

(** [for strip in self.hovering_strips: strip.update(...)] *)
Definition update_strips (s : Tool) : Tool :=
  fold_left (λ s sid, log_event (EvUpdate sid) s)
    (iter_set (order_strips host) (hovering_strips s)) s.

(** The [move handle] state: the new tool state and either the state
    name returned or the exception raised.  The unused view vectors
    [up], [rt], [fw] are left out. *)
Definition modal_handle (a : Actions) (s : Tool)
    : Tool * result (option string) :=
  if pressed a (move_done_pressed s) then (s, Ok (Some "main"))
  else if released a (move_done_released s) then (s, Ok (Some "main"))
  else if pressed a (move_cancelled s)
  then (log_event EvUndoCancel s, Ok (Some "main"))
  else if num_is_zero host (vec2_length host (vec2_sub host (mouse a) (mouselast s)))
  then (s, Ok None)
  else
    let s := set_mouselast (mouse a) s in
    let delta := vec2_sub host (mouse a) (mousedown s) in
    match move_cbpts delta (sel_cbpts s) s with
    | (s', Some x) => (s', Raise x)
    | (s', None) =>
        ((update_strip_viz host (update_strips s')), Ok None)
    end.

(** [reset] *)
Definition reset (s : Tool) : Tool :=
  set_sel_cbpts []
    (set_hovering_handles []
       (set_hovering_strips ∅ (set_strip_pts [] (set_strips [] s)))).

End Interaction.

End PolyStrips.

Arguments Host : clear implicits.
Arguments Tool : clear implicits.
Arguments SelPt : clear implicits.
Arguments Actions : clear implicits.

(** Modelled from the spec: [RFTool_PolyStrips_Strip.end_faces()], a
    method of the strip class of [polystrips_utils], "the two junction
    faces bounding the strip": the first and the last face of the chain. *)
Definition end_faces (st : Strip) : option (Face * Face) :=
  match strip_faces st with
  | [] => None
  | bmf0 :: _ =>
      match list_last (strip_faces st) with
      | None => None
      | Some bmf1 => Some (bmf0, bmf1)
      end
  end.

(** ** Predicates used in the statements below *)

Section Predicates.

Context {Key : Type} `{Countable Key} {Pos P2 Num Vec Ray : Type}.
Variable host : Host Key Pos P2 Num Vec Ray.

Implicit Types (s : Tool Pos P2) (e : SelPt Pos P2).

(** Both orderings of the key of every stored strip are in [touched],
    and the stored strips have pairwise different unordered end pairs. *)
Definition dedup_inv (touched : gset Key) (l : list Strip) : Prop :=
  (∀ a, a ∈ l →
     ∃ a0 a1, end_faces a = Some (a0, a1)
       ∧ hash_face_pair host a0 a1 ∈ touched
       ∧ hash_face_pair host a1 a0 ∈ touched)
  ∧ (∀ i j a b, i < j → l !! i = Some a → l !! j = Some b →
       ∃ a0 a1 b0 b1, end_faces a = Some (a0, a1) ∧ end_faces b = Some (b0, b1)
         ∧ (b0, b1) ≠ (a0, a1) ∧ (b0, b1) ≠ (a1, a0)).

(** What the first loop decides for one face: it has a vertex on the
    selection boundary, and either both opposing edge pairs contain a
    boundary edge or neither does. *)
Definition first_pass_keeps (bmquads : gset nat) (bmf : nat) : Prop :=
  existsb (λ bmv, is_boundaryvert host bmv bmquads) (verts host bmf) = true
  ∧ ∃ edge0 edge1 edge2 edge3,
      map (λ bme, is_boundaryedge host bme bmquads) (edges host bmf)
      = [edge0; edge1; edge2; edge3]
      ∧ (edge0 || edge2) = (edge1 || edge3).

(** The test the hover loop applies to a control point: it has a screen
    projection and its distance to the pointer is not greater than the
    scaled selection distance. *)
Definition within_select_dist (select_dist : Num) (a : Actions P2) s
    (cbpt : nat) : Prop :=
  ∃ v, Point_to_Point2D host (heap s cbpt) = Some v
    ∧ num_gtb host (vec2_length host (vec2_sub host (mouse a) v))
        (drawing_scale host select_dist) = false.

(** The raycast an edit point causes: one at its new screen position
    when it is outer, none when it is inner. *)
Definition raycast_of (delta : P2) e : list (Event P2) :=
  if sel_inner e then []
  else match sel_oco2D e with
       | Some oco2D => [EvRaycast (vec2_add host oco2D delta)]
       | None => []
       end.

(** Where a completed step leaves an edit point whose position before
    the step was [old]. *)
Definition moved_to (delta : P2) (old : Pos) e (new : Pos) : Prop :=
  ∃ oco2D, sel_oco2D e = Some oco2D ∧
    let nco2D := vec2_add host oco2D delta in
    if sel_inner e then
      ∃ t, num_div host (Point_to_depth host (sel_oco e))
             (vec_dot host (Point2D_to_Vec host oco2D)
                (ray_d host (Point2D_to_Ray host nco2D))) = Some t
           ∧ new = ray_eval host (Point2D_to_Ray host nco2D) t
    else
      match raycast_sources_Point2D host nco2D with
      | Some xyz => new = xyz
      | None => new = old
      end.

(** Every [Point] object has one snapshot in the edit set: entries for
    the same object are the same entry. *)
Definition one_snapshot (l : list (SelPt Pos P2)) : Prop :=
  ∀ e e', e ∈ l → e' ∈ l → sel_cbpt e = sel_cbpt e' → e = e'.

(** An edit point the loop body can process: its screen-space snapshot
    exists and, when it is inner, the division of the reprojection is
    defined.  Otherwise the body raises. *)
Definition movable (delta : P2) e : Prop :=
  ∃ oco2D, sel_oco2D e = Some oco2D ∧
    (sel_inner e = true →
     is_Some (num_div host (Point_to_depth host (sel_oco e))
                (vec_dot host (Point2D_to_Vec host oco2D)
                   (ray_d host (Point2D_to_Ray host (vec2_add host oco2D delta)))))).

End Predicates.

(** ** The draw callbacks

    [draw_post2d] and [draw_post3d_spline], as the data they hand to the
    drawing layer; the GL state calls, colours and sizes are left out. *)

Section Drawing.

Context {Key Pos P2 Num Vec Ray : Type}.
Variable host : Host Key Pos P2 Num Vec Ray.

(** What the draw callbacks use beyond [Host]. *)
Record DrawHost : Type := {
  face_center : Face → Pos;     (* f.center() *)
  vec2_xy : Z → Z → P2;         (* Vec2D((x, y)) *)
  vec2_div : P2 → nat → P2      (* v / n, for n = len(vs) > 0 *)
}.

Variable dhost : DrawHost.

(** The body of the loop of [draw_post2d] for one strip: the face count
    and where it is written, or [None] when the loop [continue]s because
    no face centre has a screen projection. *)
Definition strip_label (st : Strip) : option (nat * P2) :=
  let c := length (strip_faces st) in
  let vs := omap (λ f, Point_to_Point2D host (face_center dhost f)) (strip_faces st) in
  if nonempty vs then
    let ctr :=
      vec2_div dhost (fold_left (vec2_add host) vs (vec2_xy dhost 0 0)) (length vs) in
    Some (c, vec2_add host ctr (vec2_xy dhost 2 14))
  else None.

(** [draw_post2d]: the calls [text_draw2D('%d' % c, pos, ...)], in order. *)
Definition draw_post2d (s : Tool Pos P2) : list (nat * P2) :=
  omap strip_label (strips s).

(** The three point lists [draw] passes on: to [draw2D_lines], and to
    [draw2D_points] for the outer and for the inner handles. *)
Record Handles : Type := {
  line_pts : list (option P2);
  outer_pts : list (option P2);
  inner_pts : list (option P2)
}.

(** The body of [for strip in strips] in [draw]; the accumulator is
    [faces_drawn], [pts_outer] and [pts_inner].  [strip.end_faces()] of a
    strip without faces has nothing to return and is taken to raise. *)
Definition draw_strip (s : Tool Pos P2)
    (acc : gset Face * list (option P2) * list (option P2)) (st : Strip)
    : result (gset Face * list (option P2) * list (option P2)) :=
  match end_faces st with
  | None => Raise IndexError
  | Some (bmf0, bmf1) =>
      let '(p0, p1, p2, p3) := curve st in
      let '(faces_drawn, pts_outer, pts_inner) := acc in
      let '(faces_drawn, pts_outer) :=
        if bool_decide (bmf0 ∈ faces_drawn) then (faces_drawn, pts_outer)
        else ({[bmf0]} ∪ faces_drawn,
              pts_outer ++ [Point_to_Point2D host (heap s p0)]) in
      let '(faces_drawn, pts_outer) :=
        if bool_decide (bmf1 ∈ faces_drawn) then (faces_drawn, pts_outer)
        else ({[bmf1]} ∪ faces_drawn,
              pts_outer ++ [Point_to_Point2D host (heap s p3)]) in
      Ok (faces_drawn, pts_outer,
          pts_inner ++ [Point_to_Point2D host (heap s p1);
                        Point_to_Point2D host (heap s p2)])
  end.

(** [draw_post3d_spline]: [None] when it returns at once, otherwise the
    points handed to [draw2D_lines] and then either the two handle lists
    or the exception raised before they were drawn. *)
Definition draw_post3d_spline (s : Tool Pos P2)
    : option (list (option P2)
              * result (list (option P2) * list (option P2))) :=
  if nonempty (strips s) then
    let pts :=
      flat_map (λ st, map (λ p, Point_to_Point2D host (heap s p)) (curve_points st))
        (strips s) in
    Some (pts,
          '(_, pts_outer, pts_inner) ← foldM (draw_strip s) (strips s) (∅, [], []);
          Ok (pts_outer, pts_inner))
  else None.

End Drawing.

Arguments DrawHost : clear implicits.

(** The faces at which the strips of a list end. *)
Definition end_face_set (l : list Strip) : gset Face :=
  list_to_set
    (flat_map (λ st, match end_faces st with
                     | Some (bmf0, bmf1) => [bmf0; bmf1]
                     | None => []
                     end) l).

(** ** Further predicates *)

Section MorePredicates.

Context {Key Pos P2 Num Vec Ray : Type}.
Variable host : Host Key Pos P2 Num Vec Ray.

(** [f] is the last face of a chain that [crawl_strip] returned when
    started in a selected face with a boundary edge, across a neighbour
    of that edge, with a junction set between [lo] and [hi]. *)
Definition crawl_end (bmquads lo hi : gset nat) (f : nat) : Prop :=
  ∃ bme bmf bme_ mid strip,
    bmf ∈ bmquads ∧ bme ∈ edges host bmf
    ∧ is_boundaryedge host bme bmquads = true
    ∧ bme_ ∈ neighbor_edges host bmf bme
    ∧ lo ⊆ mid ∧ mid ⊆ hi
    ∧ crawl_strip host bmf bme_ bmquads mid = Some strip
    ∧ list_last strip = Some f.

(** What a detection pass leaves alone: the state name, the hover and
    drag attributes, the log of host calls, and every object that
    existed before. *)
Definition detection_frame (s s' : Tool Pos P2) : Prop :=
  fsm_state s' = fsm_state s
  ∧ hovering_handles s' = hovering_handles s
  ∧ hovering_strips s' = hovering_strips s
  ∧ sel_cbpts s' = sel_cbpts s
  ∧ mod_strips s' = mod_strips s
  ∧ mousedown s' = mousedown s
  ∧ mouselast s' = mouselast s
  ∧ rfwidget s' = rfwidget s
  ∧ log s' = log s
  ∧ next_obj s ≤ next_obj s'
  ∧ ∀ r, r ≤ next_obj s → heap s' r = heap s r.

(** What moving the edit points, updating the strips and resampling
    leave alone. *)
Definition drag_frame (s s' : Tool Pos P2) : Prop :=
  fsm_state s' = fsm_state s
  ∧ strips s' = strips s
  ∧ hovering_handles s' = hovering_handles s
  ∧ hovering_strips s' = hovering_strips s
  ∧ sel_cbpts s' = sel_cbpts s
  ∧ mod_strips s' = mod_strips s
  ∧ mousedown s' = mousedown s
  ∧ rfwidget s' = rfwidget s
  ∧ move_done_pressed s' = move_done_pressed s
  ∧ move_done_released s' = move_done_released s
  ∧ move_cancelled s' = move_cancelled s
  ∧ next_obj s' = next_obj s.

(** Control points 1 and 2 of a strip. *)
Definition inner_points (st : Strip) : list nat :=
  let '(p0, p1, p2, p3) := curve st in [p1; p2].

(** A modal step that gets to move the edit points: no key that ends
    the drag is reported and the pointer has moved since the last step. *)
Definition applies_delta (a : Actions P2) (s : Tool Pos P2) : Prop :=
  pressed a (move_done_pressed s) = false
  ∧ released a (move_done_released s) = false
  ∧ pressed a (move_cancelled s) = false
  ∧ num_is_zero host (vec2_length host (vec2_sub host (mouse a) (mouselast s)))
    = false.

End MorePredicates.

(** * A concrete host

    A grid of quads seen from above, with integer coordinates, on which
    the definitions can be run. *)

Module Example.

Definition pos : Type := Z * Z * Z.
Definition pt2 : Type := Z * Z.
Definition ray : Type := pos * pos.

(** ** A [w] by [h] grid of quads

    Face [f] is the cell in column [f mod w] and row [f / w]; its
    vertices and edges run counterclockwise from the lower left corner
    and from the bottom edge. *)

Definition vert_at (w i j : nat) : Vert := j * (w + 1) + i.
Definition hedge (w i j : nat) : Edge := j * w + i.
Definition vedge (w h i j : nat) : Edge := (h + 1) * w + j * (w + 1) + i.

Definition face_verts (w h : nat) (f : Face) : list Vert :=
  if f <? w * h then
    let i := f mod w in
    let j := f / w in
    [vert_at w i j; vert_at w (i + 1) j; vert_at w (i + 1) (j + 1); vert_at w i (j + 1)]
  else [].

Definition face_edges (w h : nat) (f : Face) : list Edge :=
  if f <? w * h then
    let i := f mod w in
    let j := f / w in
    [hedge w i j; vedge w h (i + 1) j; hedge w i (j + 1); vedge w h i j]
  else [].

Definition mem (x : nat) (l : list nat) : bool := existsb (Nat.eqb x) l.

(** [bme.link_faces] and [bmv.link_faces] *)
Definition edge_link_faces (w h : nat) (bme : Edge) : list Face :=
  List.filter (λ f, mem bme (face_edges w h f)) (seq 0 (w * h)).
Definition vert_link_faces (w h : nat) (bmv : Vert) : list Face :=
  List.filter (λ f, mem bmv (face_verts w h f)) (seq 0 (w * h)).

(** Modelled from the spec: [is_boundaryedge] of [polystrips_utils],
    "is this edge itself a selection-boundary edge": the edge borders
    exactly one face of the set. *)
Definition grid_is_boundaryedge (w h : nat) (bme : Edge) (only : gset Face) : bool :=
  length (List.filter (λ f, bool_decide (f ∈ only)) (edge_link_faces w h bme)) =? 1.

(** Modelled from the spec: [is_boundaryvert] of [polystrips_utils], a
    vertex that "touches the boundary of the selection (i.e., is shared
    with a face outside the selection or the mesh boundary)". *)
Definition grid_is_boundaryvert (w h : nat) (bmv : Vert) (only : gset Face) : bool :=
  negb (forallb (λ f, bool_decide (f ∈ only)) (vert_link_faces w h bmv))
  || (length (vert_link_faces w h bmv) <? 4).

Definition index_of (x : nat) (l : list nat) : option nat :=
  fst <$> List.find (λ p, snd p =? x) (imap (λ k y, (k, y)) l).

(** Modelled from the spec: [neighbor_edges] of the host face, the
    "neighboring boundary edges of a face relative to a given edge": the
    two edges of the quad that meet the given edge. *)
Definition grid_neighbor_edges (w h : nat) (bmf : Face) (bme : Edge) : list Edge :=
  match index_of bme (face_edges w h bmf) with
  | Some k =>
      omap (λ n, face_edges w h bmf !! (n mod 4)) [k + 3; k + 1]
  | None => []
  end.

Definition opposite_edge (w h : nat) (bmf : Face) (bme : Edge) : option Edge :=
  k ← index_of bme (face_edges w h bmf); face_edges w h bmf !! ((k + 2) mod 4).

(** Modelled from the spec: [crawl_strip] of [polystrips_utils], "a
    crawl follows the quad strip by stepping across each face's opposite
    edge pair, face to face, staying within the selection, until it
    reaches another junction face or exits the selection (failure —
    discard)".  The chain starts with the face the crawl starts from. *)
Fixpoint crawl (w h fuel : nat) (bmf0 : Face) (bme : Edge) (only stop : gset Face)
    : option (list Face) :=
  match fuel with
  | 0 => None
  | S fuel' =>
      match List.filter (λ f, negb (f =? bmf0) && bool_decide (f ∈ only))
              (edge_link_faces w h bme) with
      | [bmf1] =>
          if bool_decide (bmf1 ∈ stop) then Some [bmf0; bmf1]
          else
            match opposite_edge w h bmf1 bme with
            | Some bme' => cons bmf0 <$> crawl w h fuel' bmf1 bme' only stop
            | None => None
            end
      | _ => None
      end
  end.

(** Modelled from the spec: [hash_face_pair] of [polystrips_utils], the
    key of an ordered face pair, of which "both orderings" are
    registered. *)
Definition grid_hash_face_pair (bmf0 bmf1 : Face) : nat * nat := (bmf0, bmf1).

Definition face_center (w : nat) (f : Face) : pos :=
  (10 * Z.of_nat (f mod w) + 5, 10 * Z.of_nat (f / w) + 5, 0)%Z.

Definition lerp3 (p q : pos) (k : Z) : pos :=
  let '(px, py, pz) := p in
  let '(qx, qy, qz) := q in
  (px + k * (qx - px) / 3, py + k * (qy - py) / 3, pz + k * (qz - pz) / 3)%Z.

(** Modelled from the spec: the curve of [RFTool_PolyStrips_Strip],
    "given an ordered face chain, return 4 control points", the outer
    ones at the two end faces. *)
Definition grid_strip_curve (w : nat) (strip : list Face) : pos * pos * pos * pos :=
  let p0 := face_center w (default 0 (head strip)) in
  let p3 := face_center w (default 0 (list_last strip)) in
  (p0, lerp3 p0 p3 1, lerp3 p0 p3 2, p3).

(** Modelled from the spec: [CubicBezier.eval] at [i/10], the "uniform
    parameter steps" of the polyline sample. *)
Definition grid_bezier_eval (c : pos * pos * pos * pos) (i : nat) : pos :=
  let '(p0, p1, p2, p3) := c in
  let t := Z.of_nat i in
  let u := (10 - t)%Z in
  let mix (a b c d : Z) : Z :=
    ((u * u * u * a + 3 * u * u * t * b + 3 * u * t * t * c + t * t * t * d) / 1000)%Z in
  (mix p0.1.1 p1.1.1 p2.1.1 p3.1.1,
   mix p0.1.2 p1.1.2 p2.1.2 p3.1.2,
   mix p0.2 p1.2 p2.2 p3.2).

Definition pos_eq (p q : pos) : bool :=
  (p.1.1 =? q.1.1)%Z && (p.1.2 =? q.1.2)%Z && (p.2 =? q.2)%Z.

(** ** The view: an orthographic camera at height 100 looking down, over
    a flat source surface [z = 0] that extends to [|x|, |y| <= 1000]. *)

Definition view_Point_to_Point2D (p : pos) : option pt2 :=
  if (p.2 <? 100)%Z then Some (p.1.1, p.1.2) else None.
Definition view_Point2D_to_Ray (v : pt2) : ray := ((v.1, v.2, 100%Z), (0, 0, -1)%Z).
Definition view_raycast (v : pt2) : option pos :=
  if (Z.abs v.1 <=? 1000)%Z && (Z.abs v.2 <=? 1000)%Z then Some (v.1, v.2, 0%Z)
  else None.
Definition view_ray_eval (r : ray) (t : Z) : pos :=
  let '((ox, oy, oz), (dx, dy, dz)) := r in
  (ox + t * dx, oy + t * dy, oz + t * dz)%Z.
Definition dot3 (p q : pos) : Z :=
  (p.1.1 * q.1.1 + p.1.2 * q.1.2 + p.2 * q.2)%Z.
Definition div_opt (x y : Z) : option Z :=
  if (y =? 0)%Z then None else Some (x / y)%Z.

Definition grid_host (w h : nat) : Host (nat * nat) pos pt2 Z pos ray :=
  {| verts := face_verts w h;
     edges := face_edges w h;
     neighbor_edges := grid_neighbor_edges w h;
     is_boundaryvert := grid_is_boundaryvert w h;
     is_boundaryedge := grid_is_boundaryedge w h;
     crawl_strip := crawl w h (w * h);
     hash_face_pair := grid_hash_face_pair;
     strip_curve := grid_strip_curve w;
     bezier_eval := grid_bezier_eval;
     pos_eqb := pos_eq;
     vec2_add := λ u v, (u.1 + v.1, u.2 + v.2)%Z;
     vec2_sub := λ u v, (u.1 - v.1, u.2 - v.2)%Z;
     vec2_length := λ v, Z.sqrt (v.1 * v.1 + v.2 * v.2);
     num_gtb := Z.gtb;
     num_is_zero := Z.eqb 0;
     num_div := div_opt;
     Point_to_Point2D := view_Point_to_Point2D;
     Point2D_to_Vec := λ _, (0, 0, -1)%Z;
     Point2D_to_Ray := view_Point2D_to_Ray;
     Point_to_depth := λ p, (100 - p.2)%Z;
     raycast_sources_Point2D := view_raycast;
     ray_d := snd;
     ray_eval := view_ray_eval;
     vec_dot := dot3;
     drawing_scale := λ x, x;
     order_quads := elements_order nat;
     order_boundaries := elements_order (nat * nat);
     order_junctions := elements_order nat;
     order_strips := elements_order nat |}.

(** The three by three grid. *)
Definition host3 : Host (nat * nat) pos pt2 Z pos ray := grid_host 3 3.

(** The tool after [reset], in the [main] state. *)
Definition tool0 : Tool pos pt2 :=
  {| fsm_state := "main"; strips := []; strip_pts := [];
     hovering_strips := ∅; hovering_handles := []; sel_cbpts := [];
     mod_strips := ∅; mousedown := (0, 0)%Z; mouselast := (0, 0)%Z;
     rfwidget := "brushstroke";
     move_done_pressed := ""; move_done_released := ""; move_cancelled := "";
     heap := λ _, (0, 0, 0)%Z; next_obj := 0; log := [] |}.

(** Selections of the grid: the lower left two by two block, and the
    bottom row. *)
Definition block2x2 : gset Face := {[0; 1; 3; 4]}.
Definition bottom_row : gset Face := {[0; 1; 2]}.

(** ** A session: detection and two drags

    The top and the bottom row are selected and detected as two strips.
    A first drag takes inner control point 1 of the top strip to where
    outer control point 0 of the bottom strip is; a second drag then
    starts on outer control point 0 of the top strip. *)

(** The pointer at [m] with the action button pressed, with nothing
    pressed or released, and with the action button released. *)
Definition press_at (m : pt2) : Actions pt2 :=
  {| mouse := m; ctrl := false; shift := false;
     pressed := String.eqb "action"; released := λ _, false;
     selection_painting := None |}.
Definition pointer_at (m : pt2) : Actions pt2 :=
  {| mouse := m; ctrl := false; shift := false;
     pressed := λ _, false; released := λ _, false;
     selection_painting := None |}.
Definition release_at (m : pt2) : Actions pt2 :=
  {| mouse := m; ctrl := false; shift := false;
     pressed := λ _, false; released := String.eqb "action";
     selection_painting := None |}.

(** The selection distance, in pixels. *)
Definition select_dist : Z := 5.

Definition two_rows : gset Face := {[0; 1; 2; 6; 7; 8]}.

(** After the detection pass: strip 0 over faces 6, 7, 8 with control
    points 1 to 4, strip 5 over faces 2, 1, 0 with control points 6 to 9. *)
Definition detected : Tool pos pt2 := (update_target host3 0 two_rows tool0).1.

(** First drag: press next to control point 2, move it by (14, -20),
    release.  The FSM sets the state between the handlers. *)
Definition hovered1 : Tool pos pt2 :=
  (main host3 select_dist (press_at (12, 25)%Z) detected).1.
Definition dragging1 : Tool pos pt2 :=
  set_fsm_state "move handle" (movehandle_enter host3 (press_at (12, 25)%Z) hovered1).
Definition dragged1 : Tool pos pt2 :=
  (modal_handle host3 (pointer_at (26, 5)%Z) dragging1).1.
Definition released1 : Tool pos pt2 :=
  set_fsm_state "main" (modal_handle host3 (release_at (26, 5)%Z) dragged1).1.

(** Second drag: press next to control point 1, move it by (10, 0). *)
Definition hovered : Tool pos pt2 :=
  (main host3 select_dist (press_at (3, 25)%Z) released1).1.
Definition dragging : Tool pos pt2 :=
  set_fsm_state "move handle" (movehandle_enter host3 (press_at (3, 25)%Z) hovered).
Definition dragged : Tool pos pt2 :=
  (modal_handle host3 (pointer_at (13, 25)%Z) dragging).1.

(** The tool after a detection pass over the bottom row. *)
Definition detected_row : Tool pos pt2 := (update_target host3 0 bottom_row tool0).1.

End Example.

(** ** The draw host of the grid *)

Module ExampleDraw.

Definition draw3 : DrawHost Example.pos Example.pt2 :=
  {| face_center := Example.face_center 3;
     vec2_xy := λ x y, (x, y);
     vec2_div := λ v n, (v.1 / Z.of_nat n, v.2 / Z.of_nat n)%Z |}.

(** The four strips around the centre face, after a detection pass over
    the plus-shaped selection. *)
Definition plus : gset Face := {[1; 3; 4; 5; 7]}.
Definition detected_plus : Tool Example.pos Example.pt2 :=
  (update_target Example.host3 0 plus Example.tool0).1.

(** A state in which a pulled-in control point has no screen
    projection: after the detection over the two rows, control point 2
    is lifted to the height of the camera; then the action is pressed
    next to control point 1 and the state is entered. *)
Definition lifted : Tool Example.pos Example.pt2 :=
  set_heap (<[2 := (11, 25, 100)%Z]> (heap Example.detected)) Example.detected.
Definition lifted_dragging : Tool Example.pos Example.pt2 :=
  set_fsm_state "move handle"
    (movehandle_enter Example.host3 (Example.press_at (3, 25)%Z)
       (main Example.host3 Example.select_dist (Example.press_at (3, 25)%Z) lifted).1).

End ExampleDraw.

(** ** A view that shows only a part of the grid

    The grid host with another [Point_to_Point2D]: a point has a screen
    position only when its [x] is below 10, as for a view whose camera
    has the rest of the surface behind it.  [Point_to_Point2D] returns
    [None] for the other points, the case [main] and [draw_post2d] test
    for. *)

Module ExampleView.

Definition near_Point_to_Point2D (p : Example.pos) : option Example.pt2 :=
  if (p.1.1 <? 10)%Z then Some (p.1.1, p.1.2) else None.

Definition host3_near : Host (nat * nat) Example.pos Example.pt2 Z Example.pos Example.ray :=
  let h := Example.host3 in
  {| verts := verts h;
     edges := edges h;
     neighbor_edges := neighbor_edges h;
     is_boundaryvert := is_boundaryvert h;
     is_boundaryedge := is_boundaryedge h;
     crawl_strip := crawl_strip h;
     hash_face_pair := hash_face_pair h;
     strip_curve := strip_curve h;
     bezier_eval := bezier_eval h;
     pos_eqb := pos_eqb h;
     vec2_add := vec2_add h;
     vec2_sub := vec2_sub h;
     vec2_length := vec2_length h;
     num_gtb := num_gtb h;
     num_is_zero := num_is_zero h;
     num_div := num_div h;
     Point_to_Point2D := near_Point_to_Point2D;
     Point2D_to_Vec := Point2D_to_Vec h;
     Point2D_to_Ray := Point2D_to_Ray h;
     Point_to_depth := Point_to_depth h;
     raycast_sources_Point2D := raycast_sources_Point2D h;
     ray_d := ray_d h;
     ray_eval := ray_eval h;
     vec_dot := vec_dot h;
     drawing_scale := drawing_scale h;
     order_quads := order_quads h;
     order_boundaries := order_boundaries h;
     order_junctions := order_junctions h;
     order_strips := order_strips h |}.

(** The session: a detection pass over the two rows, which gives strip 0
    the control points 1 to 4 at (5, 25, 0), (11, 25, 0), (18, 25, 0) and
    (25, 25, 0); the action pressed at (3, 25), next to control point 1;
    the state entered; a step with the pointer at (1, 25). *)
Definition detected : Tool Example.pos Example.pt2 :=
  (update_target host3_near 0 Example.two_rows Example.tool0).1.
Definition hovered : Tool Example.pos Example.pt2 :=
  (main host3_near Example.select_dist (Example.press_at (3, 25)%Z) detected).1.
Definition dragging : Tool Example.pos Example.pt2 :=
  set_fsm_state "move handle"
    (movehandle_enter host3_near (Example.press_at (3, 25)%Z) hovered).
Definition dragged : Tool Example.pos Example.pt2 :=
  (modal_handle host3_near (Example.pointer_at (1, 25)%Z) dragging).1.

End ExampleView.

(** * Properties *)

Lemma elem_of_iter_set `{Countable A} (o : SetOrder A) (X : gset A) (x : A) :
  x ∈ iter_set o X ↔ x ∈ X.
Proof. rewrite (iter_set_perm o X). apply elem_of_elements. Qed.

Section DetectionProperties.

Context {Key : Type} `{Countable Key} {Pos P2 Num Vec Ray : Type}.
Variable host : Host Key Pos P2 Num Vec Ray.

Implicit Types (s : Tool Pos P2) (touched : gset Key) (bmquads junctions : gset nat).

Lemma not_move_handle s :
  fsm_state s ≠ "move handle" → String.eqb (fsm_state s) "move handle" = false.
Proof. intros Hne. apply String.eqb_neq. exact Hne. Qed.

(** The strip list after one [add_strip]: unchanged, or one strip longer. *)
Lemma add_strip_cases bmquads junctions bmf0 bme touched s :
  add_strip host bmquads junctions bmf0 bme (touched, s) = (touched, s)
  ∨ ∃ strip bmf1 st,
      crawl_strip host bmf0 bme bmquads junctions = Some strip
      ∧ list_last strip = Some bmf1
      ∧ 1 < length strip
      ∧ (hash_face_pair host bmf0 bmf1 ∉ touched)
      ∧ strip_faces st = strip
      ∧ add_strip host bmquads junctions bmf0 bme (touched, s)
        = ({[hash_face_pair host bmf1 bmf0]}
             ∪ ({[hash_face_pair host bmf0 bmf1]} ∪ touched),
           append_strip host strip s)
      ∧ strips (append_strip host strip s) = strips s ++ [st].
Proof.
  unfold add_strip.
  destruct (crawl_strip host bmf0 bme bmquads junctions) as [strip|]; [|by left].
  destruct (list_last strip) as [bmf1|] eqn:Hlast; [|by left].
  destruct (1 <? length strip) eqn:Hlen; [|by left].
  destruct (bool_decide (hash_face_pair host bmf0 bmf1 ∈ touched)) eqn:Hin;
    [by left|].
  right. simpl.
  apply Nat.ltb_lt in Hlen. apply bool_decide_eq_false in Hin.
  exists strip, bmf1,
    {| strip_id := next_obj s; strip_faces := strip;
       curve := (next_obj s + 1, next_obj s + 2, next_obj s + 3, next_obj s + 4) |}.
  unfold append_strip.
  destruct (strip_curve host strip) as [[[c0 c1] c2] c3].
  repeat split; done.
Qed.

(** *** Invariants of the extraction loop

    A property [I touched strips] of the set of seen keys and the strip
    list that holds initially and survives every successful append holds
    when the loop ends, however it ends. *)

Section ExtractInvariant.

Variables (bmquads junctions : gset nat).
Variable I : gset Key → list Strip → Prop.

Hypothesis I_append :
  ∀ bmf0 bme strip bmf1 st touched l,
    I touched l →
    crawl_strip host bmf0 bme bmquads junctions = Some strip →
    list_last strip = Some bmf1 →
    1 < length strip →
    hash_face_pair host bmf0 bmf1 ∉ touched →
    strip_faces st = strip →
    I ({[hash_face_pair host bmf1 bmf0]}
         ∪ ({[hash_face_pair host bmf0 bmf1]} ∪ touched)) (l ++ [st]).

Lemma add_strip_inv bmf0 bme (st : gset Key * Tool Pos P2) :
  I st.1 (strips st.2) →
  I (add_strip host bmquads junctions bmf0 bme st).1
    (strips (add_strip host bmquads junctions bmf0 bme st).2).
Proof.
  destruct st as [touched s]. intros HI.
  destruct (add_strip_cases bmquads junctions bmf0 bme touched s)
    as [->|(strip & bmf1 & st & Hc & Hl & Hlen & Hin & Hst & -> & Hs)]; [done|].
  simpl in *. rewrite Hs. by eapply I_append.
Qed.

Lemma junction_strips_inv bmf0 (st st' : gset Key * Tool Pos P2) :
  junction_strips host bmquads junctions bmf0 st = Ok st' →
  I st.1 (strips st.2) → I st'.1 (strips st'.2).
Proof.
  unfold junction_strips. intros Hj HI.
  destruct (unpack4 (edges host bmf0)) as [[[[bme0 bme1] bme2] bme3]|]; [|done].
  destruct (unpack4 _) as [[[[edge0 edge1] edge2] edge3]|]; [|done].
  simpl in Hj. injection Hj as <-.
  destruct edge0, edge1, edge2, edge3; auto using add_strip_inv.
Qed.

Lemma extract_strips_inv max_strips js (st : gset Key * Tool Pos P2) :
  (∀ touched, I touched []) →
  I st.1 (strips st.2) →
  ∃ touched, I touched (strips (extract_strips host max_strips bmquads junctions js st).1).
Proof.
  intros Hnil. revert st. induction js as [|bmf0 js IH]; intros st HI; simpl.
  - by exists st.1.
  - destruct (junction_strips host bmquads junctions bmf0 st) as [st'|e] eqn:Hj.
    + destruct (over_cap max_strips st'.2).
      * exists ∅. simpl. apply Hnil.
      * apply IH. by eapply junction_strips_inv.
    + by exists st.1.
Qed.

End ExtractInvariant.

(** The strip list the handler leaves, when it runs past its guard, is
    the one of the extraction loop started from an empty list, or empty. *)
Lemma update_target_strips max_strips selected s :
  fsm_state s ≠ "move handle" →
  strips (update_target host max_strips selected s).1 = []
  ∨ ∃ junctions,
      strips (update_target host max_strips selected s).1
      = strips (extract_strips host max_strips (quads_of host selected) junctions
                  (iter_set (order_junctions host) junctions)
                  (∅, set_strips [] s)).1.
Proof.
  intros Hst. unfold update_target. rewrite (not_move_handle _ Hst).
  destruct (decide (quads_of host selected = ∅)); [by left|].
  destruct (_ ≫= _) as [junctions|e]; [|by left].
  right. exists junctions.
  destruct (extract_strips _ _ _ _ _ _) as [s' [e|]]; done.
Qed.

(** C4: every strip in the detection result has at least two faces. *)
Theorem detected_strips_have_two_faces max_strips selected s st :
  fsm_state s ≠ "move handle" →
  st ∈ strips (update_target host max_strips selected s).1 →
  2 ≤ length (strip_faces st).
Proof.
  intros Hst.
  destruct (update_target_strips max_strips selected s Hst) as [->|[junctions ->]].
  { inversion 1. }
  destruct (extract_strips_inv (quads_of host selected) junctions
              (λ _ l, Forall (λ st, 2 ≤ length (strip_faces st)) l))
    with (max_strips := max_strips)
         (js := iter_set (order_junctions host) junctions)
         (st := (∅ : gset Key, set_strips [] s)) as [_ HI].
  - intros bmf0 bme strip bmf1 st' touched l Hl _ _ Hlen _ Hf.
    apply Forall_app. split; [done|]. constructor; [|constructor]. rewrite Hf. lia.
  - by constructor.
  - by constructor.
  - intros Hin. rewrite list.Forall_forall in HI. by apply HI.
Qed.

(** *** The strip cap *)

Lemma over_cap_zero s : over_cap 0 s = false.
Proof. reflexivity. Qed.

Lemma over_cap_spec max_strips s :
  (0 < max_strips)%Z →
  over_cap max_strips s = false →
  (Z.of_nat (length (strips s)) ≤ max_strips)%Z.
Proof.
  unfold over_cap. intros Hpos Hcap.
  destruct (max_strips =? 0)%Z eqn:H0; [lia|].
  simpl in Hcap. lia.
Qed.

(** If the loop without a cap ends with more than [max_strips] strips,
    the capped loop ends with none. *)
Lemma extract_strips_cap max_strips bmquads junctions js
    (st : gset Key * Tool Pos P2) :
  (0 < max_strips)%Z →
  (Z.of_nat (length (strips st.2)) ≤ max_strips)%Z →
  (max_strips
   < Z.of_nat (length (strips (extract_strips host 0 bmquads junctions js st).1)))%Z →
  strips (extract_strips host max_strips bmquads junctions js st).1 = [].
Proof.
  intros Hpos. revert st. induction js as [|bmf0 js IH]; intros st Hle Hgt; simpl in *.
  - lia.
  - destruct (junction_strips host bmquads junctions bmf0 st) as [st'|e]; simpl in *.
    + rewrite ?over_cap_zero in Hgt.
      destruct (over_cap max_strips st'.2) eqn:Hcap; [done|].
      apply IH; [|done]. by apply over_cap_spec.
    + lia.
Qed.

(** C2: with a cap K > 0, a selection that yields more than K strips
    when no cap is set yields the empty strip list. *)
Theorem over_cap_clears_strips max_strips selected s :
  fsm_state s ≠ "move handle" →
  (0 < max_strips)%Z →
  (max_strips
   < Z.of_nat (length (strips (update_target host 0 selected s).1)))%Z →
  strips (update_target host max_strips selected s).1 = [].
Proof.
  intros Hst Hpos. unfold update_target. rewrite (not_move_handle _ Hst).
  destruct (decide (quads_of host selected = ∅)); [done|].
  destruct (_ ≫= _) as [junctions|e]; [|done].
  intros Hgt.
  pose proof (extract_strips_cap max_strips (quads_of host selected) junctions
                (iter_set (order_junctions host) junctions)
                (∅, set_strips [] s) Hpos) as Hcap.
  destruct (extract_strips host 0 _ _ _ _) as [s0 [e0|]];
    destruct (extract_strips host max_strips _ _ _ _) as [s1 [e1|]];
    simpl in *; apply Hcap; lia.
Qed.

(** *** The guard and the early return *)

(** C8: in the 'move handle' state the handler returns at once and the
    whole tool state (strip list, polyline samples, every control point)
    is as before. *)
Theorem update_target_during_move_handle max_strips selected s :
  fsm_state s = "move handle" →
  update_target host max_strips selected s = (s, None).
Proof. intros Hst. unfold update_target. by rewrite Hst. Qed.

(** C9: a detection pass over a selection without quads returns with the
    strip list empty. *)
Theorem no_quads_no_strips max_strips selected s :
  fsm_state s ≠ "move handle" →
  quads_of host selected = ∅ →
  strips (update_target host max_strips selected s).1 = []
  ∧ (update_target host max_strips selected s).2 = None.
Proof.
  intros Hst Hq. unfold update_target. rewrite (not_move_handle _ Hst).
  by rewrite decide_True.
Qed.

(** C10: a detection pass over a selection without quads clears the
    strip list and leaves the polyline samples of the previous pass in
    place; samples that were there remain next to an empty strip list. *)
Theorem no_quads_keeps_strip_pts max_strips selected s :
  fsm_state s ≠ "move handle" →
  quads_of host selected = ∅ →
  strips (update_target host max_strips selected s).1 = []
  ∧ strip_pts (update_target host max_strips selected s).1 = strip_pts s
  ∧ (strip_pts s ≠ [] → strip_pts (update_target host max_strips selected s).1 ≠ []).
Proof.
  intros Hst Hq. unfold update_target. rewrite (not_move_handle _ Hst).
  by rewrite decide_True.
Qed.

(** *** Deduplication by end-face pair *)

Lemma dedup_inv_nil touched : dedup_inv host touched [].
Proof.
  split.
  - by intros a ?%elem_of_nil.
  - intros i j a b _ Hi. by rewrite lookup_nil in Hi.
Qed.

Lemma dedup_inv_append bmquads junctions :
  (∀ bmf0 bme bmquads junctions bmf strip,
     crawl_strip host bmf0 bme bmquads junctions = Some (bmf :: strip) →
     bmf = bmf0) →
  ∀ bmf0 bme strip bmf1 st touched l,
    dedup_inv host touched l →
    crawl_strip host bmf0 bme bmquads junctions = Some strip →
    list_last strip = Some bmf1 →
    1 < length strip →
    hash_face_pair host bmf0 bmf1 ∉ touched →
    strip_faces st = strip →
    dedup_inv host ({[hash_face_pair host bmf1 bmf0]}
                 ∪ ({[hash_face_pair host bmf0 bmf1]} ∪ touched)) (l ++ [st]).
Proof.
  intros Hhead bmf0 bme strip bmf1 st touched l [Hreg Hpair] Hc Hlast Hlen Hnew Hst.
  assert (end_faces st = Some (bmf0, bmf1)) as Hends.
  { unfold end_faces. rewrite Hst.
    destruct strip as [|bmf strip]; [done|].
    rewrite (Hhead _ _ _ _ _ _ Hc) in Hlast |- *. by rewrite Hlast. }
  split.
  - intros a [Ha| ->%list_elem_of_singleton]%elem_of_app.
    + destruct (Hreg a Ha) as (a0 & a1 & Hea & H01 & H10).
      exists a0, a1. set_solver.
    + exists bmf0, bmf1. set_solver.
  - intros i j a b Hij Hi Hj.
    assert (j < length (l ++ [st])) as Hjlen by (by eapply lookup_lt_Some).
    rewrite length_app in Hjlen. simpl in Hjlen.
    assert (l !! i = Some a) as Hia by (rewrite lookup_app_l in Hi; [done|lia]).
    destruct (decide (j < length l)) as [Hjl|Hjl].
    + rewrite lookup_app_l in Hj by done. by apply (Hpair i j a b).
    + assert (j = length l) as -> by lia.
      rewrite list_lookup_middle in Hj by done. injection Hj as <-.
      destruct (Hreg a) as (a0 & a1 & Hea & H01 & H10).
      { by eapply list_elem_of_lookup_2. }
      exists a0, a1, bmf0, bmf1. repeat split; [done..| |]; congruence.
Qed.

(** C3: no two strips of the detection result have the same unordered
    pair of end faces, and a crawl whose end pair is already registered
    appends nothing. *)
Theorem strips_have_distinct_end_pairs max_strips selected s :
  (∀ bmf0 bme bmquads junctions bmf strip,
     crawl_strip host bmf0 bme bmquads junctions = Some (bmf :: strip) →
     bmf = bmf0) →
  fsm_state s ≠ "move handle" →
  (∀ i j a b, i < j →
     strips (update_target host max_strips selected s).1 !! i = Some a →
     strips (update_target host max_strips selected s).1 !! j = Some b →
     ∃ a0 a1 b0 b1, end_faces a = Some (a0, a1) ∧ end_faces b = Some (b0, b1)
       ∧ (b0, b1) ≠ (a0, a1) ∧ (b0, b1) ≠ (a1, a0))
  ∧ (∀ bmquads junctions bmf0 bme bmf1 strip touched (t : Tool Pos P2),
       crawl_strip host bmf0 bme bmquads junctions = Some strip →
       list_last strip = Some bmf1 →
       hash_face_pair host bmf0 bmf1 ∈ touched →
       hash_face_pair host bmf1 bmf0 ∈ touched →
       add_strip host bmquads junctions bmf0 bme (touched, t) = (touched, t)).
Proof.
  intros Hhead Hst. split.
  - destruct (update_target_strips max_strips selected s Hst) as [->|[junctions ->]].
    { intros i j a b _ Hi. by rewrite lookup_nil in Hi. }
    destruct (extract_strips_inv (quads_of host selected) junctions (dedup_inv host))
      with (max_strips := max_strips)
           (js := iter_set (order_junctions host) junctions)
           (st := (∅ : gset Key, set_strips [] s)) as [touched [_ Hpair]].
    + by apply dedup_inv_append.
    + apply dedup_inv_nil.
    + apply dedup_inv_nil.
    + exact Hpair.
  - intros bmquads junctions bmf0 bme bmf1 strip touched t Hc Hlast H01 _.
    unfold add_strip. rewrite Hc, Hlast.
    rewrite (bool_decide_eq_true_2 _ H01). by rewrite andb_false_r.
Qed.

(** *** The first pass *)

Lemma first_pass_face_spec bmquads junctions bmf :
  length (edges host bmf) = 4 →
  ∃ junctions',
    first_pass_face host bmquads junctions bmf = Ok junctions'
    ∧ ∀ f, f ∈ junctions' ↔ f ∈ junctions ∨ (f = bmf ∧ first_pass_keeps host bmquads bmf).
Proof.
  intros Hlen. unfold first_pass_face, first_pass_keeps.
  destruct (existsb _ (verts host bmf)) eqn:Hv; simpl.
  - destruct (edges host bmf) as [|b0 [|b1 [|b2 [|b3 [|]]]]]; try done.
    simpl.
    set (edge0 := is_boundaryedge host b0 bmquads).
    set (edge1 := is_boundaryedge host b1 bmquads).
    set (edge2 := is_boundaryedge host b2 bmquads).
    set (edge3 := is_boundaryedge host b3 bmquads).
    destruct ((edge0 || edge2) && negb (edge1 || edge3)) eqn:H02;
      [|destruct ((edge1 || edge3) && negb (edge0 || edge2)) eqn:H13].
    + eexists; split; [done|]. intros f. split; [by left|].
      intros [Hf|[-> [_ (e0 & e1 & e2 & e3 & [= <- <- <- <-] & Heq)]]]; [done|].
      rewrite Heq in H02. by destruct (edge1 || edge3).
    + eexists; split; [done|]. intros f. split; [by left|].
      intros [Hf|[-> [_ (e0 & e1 & e2 & e3 & [= <- <- <- <-] & Heq)]]]; [done|].
      rewrite Heq in H13. by destruct (edge1 || edge3).
    + eexists; split; [done|]. intros f.
      rewrite elem_of_union, elem_of_singleton. split.
      * intros [->|Hf]; [right|by left]. split; [done|]. split; [done|].
        exists edge0, edge1, edge2, edge3. split; [done|].
        by destruct (edge0 || edge2), (edge1 || edge3).
      * intros [Hf|[-> _]]; [by right|by left].
  - eexists; split; [done|]. intros f. split; [by left|].
    by intros [Hf|[_ [? _]]].
Qed.

Lemma first_pass_fold_spec bmquads l junctions :
  (∀ bmf, bmf ∈ l → length (edges host bmf) = 4) →
  ∃ junctions',
    foldM (first_pass_face host bmquads) l junctions = Ok junctions'
    ∧ ∀ f, f ∈ junctions' ↔ f ∈ junctions ∨ (f ∈ l ∧ first_pass_keeps host bmquads f).
Proof.
  revert junctions. induction l as [|bmf l IH]; intros junctions Hlen; simpl.
  - exists junctions. split; [done|]. intros f. split; [by left|].
    by intros [?|[?%elem_of_nil _]].
  - destruct (first_pass_face_spec bmquads junctions bmf) as (J1 & -> & HJ1).
    { apply Hlen. by left. }
    destruct (IH J1) as (J2 & HJ2 & Hspec).
    { intros f Hf. apply Hlen. by right. }
    exists J2. split; [exact HJ2|]. intros f.
    rewrite Hspec, HJ1, elem_of_cons. naive_solver.
Qed.

(** C1, as the code has it: the first pass classifies a face as a
    junction exactly when it is a selected quad with a vertex on the
    selection boundary whose opposing edge pairs either both contain a
    boundary edge or both contain none.  A face with a boundary edge in
    one pair only is passed over; a face with one boundary edge from each
    pair is a junction. *)
Theorem first_pass_junctions bmquads :
  (∀ bmf, bmf ∈ bmquads → length (edges host bmf) = 4) →
  ∃ junctions,
    first_pass host bmquads = Ok junctions
    ∧ ∀ bmf, bmf ∈ junctions ↔
        bmf ∈ bmquads
        ∧ existsb (λ bmv, is_boundaryvert host bmv bmquads) (verts host bmf) = true
        ∧ ∃ edge0 edge1 edge2 edge3,
            map (λ bme, is_boundaryedge host bme bmquads) (edges host bmf)
            = [edge0; edge1; edge2; edge3]
            ∧ (edge0 || edge2) = (edge1 || edge3).
Proof.
  intros Hlen. unfold first_pass.
  destruct (first_pass_fold_spec bmquads
              (iter_set (order_quads host) bmquads) ∅) as (J & HJ & Hspec).
  { intros bmf Hf. apply Hlen. by apply elem_of_iter_set in Hf. }
  exists J. split; [exact HJ|]. intros bmf.
  rewrite Hspec, elem_of_iter_set. unfold first_pass_keeps. set_solver.
Qed.

End DetectionProperties.

Section InteractionProperties.

Context {Key Pos P2 Num Vec Ray : Type}.
Variable host : Host Key Pos P2 Num Vec Ray.

Implicit Types (s : Tool Pos P2) (a : Actions P2) (e : SelPt Pos P2).

(** *** Hovering *)

Lemma hover_point_spec select_dist a s sid acc cbpt r :
  r ∈ (hover_point host select_dist a s sid acc cbpt).1
  ↔ r ∈ acc.1 ∨ (r = cbpt ∧ within_select_dist host select_dist a s cbpt).
Proof.
  unfold hover_point, within_select_dist.
  destruct (Point_to_Point2D host (heap s cbpt)) as [v|].
  - destruct (num_gtb _ _ _) eqn:Hgt; simpl.
    + split; [by left|]. intros [?|[_ (v' & [= <-] & Hv')]]; [done|congruence].
    + rewrite elem_of_app, list_elem_of_singleton. split.
      * intros [? | ->]; [by left|right]. split; [done|]. by exists v.
      * intros [?|[-> _]]; [by left|by right].
  - split; [by left|]. by intros [?|[_ (v' & ? & _)]].
Qed.

Lemma hover_points_spec select_dist a s sid pts acc r :
  r ∈ (fold_left (hover_point host select_dist a s sid) pts acc).1
  ↔ r ∈ acc.1 ∨ (r ∈ pts ∧ within_select_dist host select_dist a s r).
Proof.
  revert acc. induction pts as [|cbpt pts IH]; intros acc; simpl.
  - split; [by left|]. by intros [?|[?%elem_of_nil _]].
  - rewrite IH, hover_point_spec, elem_of_cons. naive_solver.
Qed.

Lemma hover_strips_spec select_dist a s l acc r :
  r ∈ (fold_left (hover_strip host select_dist a s) l acc).1
  ↔ r ∈ acc.1 ∨ ∃ st, st ∈ l ∧ r ∈ curve_points st
                     ∧ within_select_dist host select_dist a s r.
Proof.
  revert acc. induction l as [|st l IH]; intros acc; simpl.
  - split; [by left|]. by intros [?|(st & ?%elem_of_nil & _)].
  - rewrite IH. unfold hover_strip. rewrite hover_points_spec.
    setoid_rewrite elem_of_cons. naive_solver.
Qed.

Lemma main_hovering_handles select_dist a s :
  hovering_handles (main host select_dist a s).1 = (hover host select_dist a s).1.
Proof.
  unfold main. destruct (hover host select_dist a s) as [handles hstrips].
  repeat (match goal with |- context [if ?b then _ else _] => destruct b end);
    reflexivity.
Qed.

(** C7, as the code has it: a control point of a strip is hovered
    exactly when its screen projection exists and its distance to the
    pointer is not greater than the selection distance; a point whose
    distance equals the threshold is hovered. *)
Theorem hovering_handles_within_select_dist select_dist a s :
  (∀ x, num_gtb host x x = false) →
  (∀ r, r ∈ hovering_handles (main host select_dist a s).1
        ↔ ∃ st, st ∈ strips s ∧ r ∈ curve_points st
            ∧ ∃ v, Point_to_Point2D host (heap s r) = Some v
                ∧ num_gtb host (vec2_length host (vec2_sub host (mouse a) v))
                    (drawing_scale host select_dist) = false)
  ∧ (∀ st r v, st ∈ strips s → r ∈ curve_points st →
       Point_to_Point2D host (heap s r) = Some v →
       vec2_length host (vec2_sub host (mouse a) v) = drawing_scale host select_dist →
       r ∈ hovering_handles (main host select_dist a s).1).
Proof.
  intros Hirr.
  assert (∀ r, r ∈ hovering_handles (main host select_dist a s).1
        ↔ ∃ st, st ∈ strips s ∧ r ∈ curve_points st
            ∧ within_select_dist host select_dist a s r) as Hspec.
  { intros r. rewrite main_hovering_handles. unfold hover.
    rewrite hover_strips_spec. simpl. split; [|by right].
    by intros [?%elem_of_nil|?]. }
  split; [exact Hspec|].
  intros st r v Hst Hr Hv Hd. apply Hspec. exists st. repeat split; [done..|].
  exists v. split; [done|]. rewrite Hd. apply Hirr.
Qed.

(** *** Moving the edit points *)

Lemma move_cbpt_spec delta s e s1 :
  move_cbpt host delta s e = Ok s1 →
  log s1 = log s ++ raycast_of host delta e
  ∧ moved_to host delta (heap s (sel_cbpt e)) e (heap s1 (sel_cbpt e))
  ∧ (∀ r, r ≠ sel_cbpt e → heap s1 r = heap s r)
  ∧ hovering_strips s1 = hovering_strips s
  ∧ strips s1 = strips s.
Proof.
  unfold move_cbpt, raycast_of, moved_to.
  destruct (sel_oco2D e) as [oco2D|]; [|done].
  destruct (sel_inner e); simpl.
  - destruct (num_div _ _ _) as [t|] eqn:Hdiv; [|done].
    intros [= <-]. simpl. rewrite app_nil_r. repeat split; try done.
    + exists oco2D. split; [done|]. exists t. split; [done|].
      by rewrite fn_lookup_insert.
    + intros r Hr. by rewrite fn_lookup_insert_ne.
  - destruct (raycast_sources_Point2D _ _) as [xyz|] eqn:Hray;
      intros [= <-]; simpl; repeat split; try done.
    + exists oco2D. split; [done|]. rewrite Hray. by rewrite fn_lookup_insert.
    + intros r Hr. by rewrite fn_lookup_insert_ne.
    + exists oco2D. split; [done|]. by rewrite Hray.
Qed.

(** When the raycast of an outer point misses, the point stays where it
    was, so the position before its own processing can stand for the
    position after it. *)
Lemma moved_to_before delta s e s1 new :
  move_cbpt host delta s e = Ok s1 →
  moved_to host delta (heap s1 (sel_cbpt e)) e new →
  moved_to host delta (heap s (sel_cbpt e)) e new.
Proof.
  unfold move_cbpt, moved_to. intros Hmove (oco2D & Ho & Hnew).
  exists oco2D. split; [done|]. rewrite Ho in Hmove.
  destruct (sel_inner e); simpl in *; [done|].
  destruct (raycast_sources_Point2D _ _); [done|].
  injection Hmove as <-. exact Hnew.
Qed.

Lemma one_snapshot_tail (e0 : SelPt Pos P2) l :
  one_snapshot (e0 :: l) → one_snapshot l.
Proof.
  intros Hone e e' He He'. apply Hone; by apply list_elem_of_further.
Qed.

Lemma move_cbpts_spec delta l s s' :
  move_cbpts host delta l s = (s', None) →
  log s' = log s ++ flat_map (raycast_of host delta) l
  ∧ (∀ r, r ∉ map sel_cbpt l → heap s' r = heap s r)
  ∧ (one_snapshot l →
     ∀ e, e ∈ l → moved_to host delta (heap s (sel_cbpt e)) e (heap s' (sel_cbpt e)))
  ∧ hovering_strips s' = hovering_strips s
  ∧ strips s' = strips s.
Proof.
  revert s. induction l as [|e0 l IH]; intros s; simpl.
  - intros [= <-]. rewrite app_nil_r. repeat split; try done.
    by intros _ e ?%elem_of_nil.
  - destruct (move_cbpt host delta s e0) as [s1|x] eqn:Hmove; [|done].
    intros Hrest.
    destruct (move_cbpt_spec _ _ _ _ Hmove) as (Hlog1 & Hmv1 & Hfr1 & Hh1 & Hs1).
    destruct (IH _ Hrest) as (Hlog & Hfr & Hmv & Hh & Hs).
    repeat split.
    + by rewrite Hlog, Hlog1, app_assoc.
    + intros r Hr. apply not_elem_of_cons in Hr as [Hr0 Hr].
      rewrite Hfr by done. by apply Hfr1.
    + intros Hone e He.
      destruct (decide (sel_cbpt e ∈ map sel_cbpt l)) as [Hin|Hnotin].
      * (* the object occurs again further on: that entry is [e] *)
        apply list_elem_of_fmap in Hin as (e' & Href & He').
        assert (e = e') as <-.
        { apply Hone; [done|by apply list_elem_of_further|done]. }
        pose proof (Hmv (one_snapshot_tail _ _ Hone) e He') as Hlater.
        destruct (decide (sel_cbpt e = sel_cbpt e0)) as [Heq|Hne].
        -- assert (e = e0) as ->.
           { apply Hone; [done|apply list_elem_of_here|done]. }
           by eapply moved_to_before.
        -- by rewrite <- (Hfr1 _ Hne).
      * (* last entry for this object: it is the head *)
        apply elem_of_cons in He as [->|He].
        -- rewrite Hfr by done. exact Hmv1.
        -- exfalso. apply Hnotin. by apply list_elem_of_fmap_2.
    + by rewrite Hh, Hh1.
    + by rewrite Hs, Hs1.
Qed.

(** The edit set [movehandle_enter] builds has one snapshot per object. *)
Lemma movehandle_enter_one_snapshot a s :
  one_snapshot (sel_cbpts (movehandle_enter host a s)).
Proof.
  unfold movehandle_enter.
  destruct (fold_left _ _ _) as [cbpts mods]. simpl.
  intros e e' (r & -> & _)%list_elem_of_fmap (r' & -> & _)%list_elem_of_fmap.
  simpl. by intros ->.
Qed.

Lemma update_strips_log s :
  log (update_strips host s)
  = log s ++ map EvUpdate (iter_set (order_strips host) (hovering_strips s))
  ∧ heap (update_strips host s) = heap s.
Proof.
  unfold update_strips.
  generalize (iter_set (order_strips host) (hovering_strips s)).
  intros l. revert s. induction l as [|sid l IH]; intros s; simpl.
  - by rewrite app_nil_r.
  - destruct (IH (log_event (EvUpdate sid) s)) as [-> ->]. simpl.
    by rewrite <- app_assoc.
Qed.

Lemma move_cbpt_total delta s e :
  movable host delta e → ∃ s1, move_cbpt host delta s e = Ok s1.
Proof.
  intros (oco2D & Ho & Hdiv). unfold move_cbpt. rewrite Ho.
  destruct (sel_inner e); simpl.
  - destruct (Hdiv eq_refl) as [t ->]. by eexists.
  - destruct (raycast_sources_Point2D _ _); by eexists.
Qed.

Lemma move_cbpts_total delta l s :
  Forall (movable host delta) l → ∃ s', move_cbpts host delta l s = (s', None).
Proof.
  intros Hall. revert s. induction Hall as [|e l He _ IH]; intros s; simpl.
  - by eexists.
  - destruct (move_cbpt_total delta s e He) as [s1 ->]. apply IH.
Qed.

(** X19: a modal step that applies the pointer delta completes when every
    edit point has a screen position in its snapshot, the division of
    the reprojection is defined for every inner one, and no [Point]
    object is in the edit set twice; its host calls are then one raycast
    per outer edit point, at its new screen position, none for an inner
    point, followed by the strip updates; an inner point ends at its
    depth-preserving reprojection, an outer point at the raycast hit, or
    where it was when the raycast misses. *)
Theorem modal_handle_moves_points a s :
  pressed a (move_done_pressed s) = false →
  released a (move_done_released s) = false →
  pressed a (move_cancelled s) = false →
  num_is_zero host (vec2_length host (vec2_sub host (mouse a) (mouselast s))) = false →
  let delta := vec2_sub host (mouse a) (mousedown s) in
  (∀ e, e ∈ sel_cbpts s →
     ∃ oco2D, sel_oco2D e = Some oco2D ∧
       (sel_inner e = true →
        is_Some (num_div host (Point_to_depth host (sel_oco e))
                   (vec_dot host (Point2D_to_Vec host oco2D)
                      (ray_d host (Point2D_to_Ray host (vec2_add host oco2D delta))))))) →
  (∀ e e', e ∈ sel_cbpts s → e' ∈ sel_cbpts s →
     sel_cbpt e = sel_cbpt e' → e = e') →
  ∃ s', modal_handle host a s = (s', Ok None)
  ∧ log s' = log s
           ++ flat_map (λ e, if sel_inner e then []
                             else match sel_oco2D e with
                                  | Some oco2D => [EvRaycast (vec2_add host oco2D delta)]
                                  | None => []
                                  end) (sel_cbpts s)
           ++ map EvUpdate (iter_set (order_strips host) (hovering_strips s))
  ∧ (∀ e, e ∈ sel_cbpts s →
       ∃ oco2D, sel_oco2D e = Some oco2D ∧
         let nco2D := vec2_add host oco2D delta in
         if sel_inner e then
           ∃ t, num_div host (Point_to_depth host (sel_oco e))
                  (vec_dot host (Point2D_to_Vec host oco2D)
                     (ray_d host (Point2D_to_Ray host nco2D))) = Some t
                ∧ heap s' (sel_cbpt e) = ray_eval host (Point2D_to_Ray host nco2D) t
         else
           match raycast_sources_Point2D host nco2D with
           | Some xyz => heap s' (sel_cbpt e) = xyz
           | None => heap s' (sel_cbpt e) = heap s (sel_cbpt e)
           end).
Proof.
  intros Hp Hr Hc Hz delta Hmovable Hone.
  unfold modal_handle. rewrite Hp, Hr, Hc, Hz. simpl.
  destruct (move_cbpts_total delta (sel_cbpts s) (set_mouselast (mouse a) s))
    as [s1 Hloop].
  { apply list.Forall_forall. exact Hmovable. }
  fold delta. rewrite Hloop. eexists. split; [reflexivity|].
  destruct (move_cbpts_spec _ _ _ _ Hloop) as (Hlog & _ & Hmv & Hh & _).
  destruct (update_strips_log s1) as [Hulog Huheap].
  simpl in *. rewrite Huheap. split.
  - rewrite Hulog, Hlog, Hh. by rewrite <- app_assoc.
  - intros e He. exact (Hmv Hone e He).
Qed.

End InteractionProperties.

(** * The properties on the concrete host *)

Module Checks.
Import Example.

(** Every chain the grid crawl returns starts with the face it was
    started from. *)
Lemma crawl_head w h fuel bmf0 bme only stop bmf strip :
  crawl w h fuel bmf0 bme only stop = Some (bmf :: strip) → bmf = bmf0.
Proof.
  destruct fuel as [|fuel]; simpl; [done|].
  destruct (List.filter _ _) as [|bmf1 [|? ?]]; [done| |done].
  destruct (bool_decide (bmf1 ∈ stop)); [by intros [= ->]|].
  destruct (opposite_edge w h bmf1 bme) as [bme'|]; [|done].
  destruct (crawl w h fuel bmf1 bme' only stop); simpl; [|done].
  by intros [= ->].
Qed.

(** C1, counterexample: face 0 of the two by two block is a corner.  It
    has vertices on the selection boundary, exactly one boundary edge in
    the pair (edge0, edge2) and exactly one in the pair (edge1, edge3),
    and the first pass classifies it as a junction. *)
Lemma first_pass_corner_counterexample :
  0 ∈ block2x2
  ∧ existsb (λ bmv, is_boundaryvert host3 bmv block2x2) (verts host3 0) = true
  ∧ map (λ bme, is_boundaryedge host3 bme block2x2) (edges host3 0)
    = [true; false; false; true]
  ∧ ∃ junctions, first_pass host3 block2x2 = Ok junctions ∧ 0 ∈ junctions.
Proof.
  split; [apply (bool_decide_unpack _); by vm_compute|].
  split; [by vm_compute|]. split; [by vm_compute|].
  destruct (first_pass host3 block2x2) as [junctions|] eqn:Hfp;
    [|by vm_compute in Hfp].
  exists junctions. split; [done|].
  apply (bool_decide_eq_true_1 _).
  assert (match first_pass host3 block2x2 with
          | Ok j => bool_decide (0 ∈ j)
          | Raise _ => false
          end = true) as Hin by (by vm_compute).
  by rewrite Hfp in Hin.
Qed.

(** C1, witness: the bottom row, whose middle face is passed over and
    whose end faces are junctions. *)
Lemma first_pass_junctions_witness :
  ∃ junctions,
    first_pass host3 bottom_row = Ok junctions
    ∧ ∀ bmf, bmf ∈ junctions ↔
        bmf ∈ bottom_row
        ∧ existsb (λ bmv, is_boundaryvert host3 bmv bottom_row) (verts host3 bmf) = true
        ∧ ∃ edge0 edge1 edge2 edge3,
            map (λ bme, is_boundaryedge host3 bme bottom_row) (edges host3 bmf)
            = [edge0; edge1; edge2; edge3]
            ∧ (edge0 || edge2) = (edge1 || edge3).
Proof.
  apply (first_pass_junctions host3 bottom_row).
  intros bmf Hbmf. unfold bottom_row in Hbmf.
  repeat (apply elem_of_union in Hbmf as [Hbmf|Hbmf]);
    apply elem_of_singleton in Hbmf as ->; reflexivity.
Defined.

(** C2, witness: the two by two block yields four strips without a cap
    and none with a cap of three. *)
Lemma over_cap_clears_strips_witness :
  strips (update_target host3 3 block2x2 tool0).1 = [].
Proof.
  apply (over_cap_clears_strips host3 3 block2x2 tool0).
  - discriminate.
  - lia.
  - vm_compute. reflexivity.
Defined.

(** C3, witness: the four strips of the two by two block. *)
Lemma strips_have_distinct_end_pairs_witness :
  (∀ i j a b, i < j →
     strips (update_target host3 0 block2x2 tool0).1 !! i = Some a →
     strips (update_target host3 0 block2x2 tool0).1 !! j = Some b →
     ∃ a0 a1 b0 b1, end_faces a = Some (a0, a1) ∧ end_faces b = Some (b0, b1)
       ∧ (b0, b1) ≠ (a0, a1) ∧ (b0, b1) ≠ (a1, a0))
  ∧ (∀ bmquads junctions bmf0 bme bmf1 strip touched (t : Tool pos pt2),
       crawl_strip host3 bmf0 bme bmquads junctions = Some strip →
       list_last strip = Some bmf1 →
       hash_face_pair host3 bmf0 bmf1 ∈ touched →
       hash_face_pair host3 bmf1 bmf0 ∈ touched →
       add_strip host3 bmquads junctions bmf0 bme (touched, t) = (touched, t)).
Proof.
  apply (strips_have_distinct_end_pairs host3 0 block2x2 tool0).
  - intros bmf0 bme bmquads junctions bmf strip.
    exact (crawl_head 3 3 (3 * 3) bmf0 bme bmquads junctions bmf strip).
  - discriminate.
Defined.

(** C4, witness: the strip of the bottom row has three faces. *)
Lemma detected_strips_have_two_faces_witness :
  2 ≤ length (strip_faces {| strip_id := 0; strip_faces := [2; 1; 0];
                             curve := (1, 2, 3, 4) |}).
Proof.
  apply (detected_strips_have_two_faces host3 0 bottom_row tool0).
  - discriminate.
  - vm_compute. apply list_elem_of_here.
Defined.

(** X19, witness: the step of the second drag after the pointer moved
    by (10, 0) casts one ray, for the outer point 1, and none for the two
    inner points 2 and 7. *)
Lemma modal_handle_moves_points_witness :
  ∃ s', modal_handle host3 (pointer_at (13, 25)%Z) dragging = (s', Ok None)
    ∧ log s' = log dragging ++ [EvRaycast (15, 25)%Z; EvUpdate 0]
    ∧ heap s' 1 = (15, 25, 0)%Z
    ∧ heap s' 2 = (35, 5, 0)%Z.
Proof.
  destruct (modal_handle_moves_points host3 (pointer_at (13, 25)%Z) dragging)
    as (s' & Hstep & Hlog & Hpts).
  - reflexivity.
  - reflexivity.
  - reflexivity.
  - reflexivity.
  - intros e He. vm_compute in He.
    repeat (apply elem_of_cons in He as [->|He]);
      [..|by apply elem_of_nil in He];
      (eexists; split; [reflexivity|]); intros _; vm_compute; eauto.
  - intros e e' He He'. vm_compute in He, He'.
    repeat (apply elem_of_cons in He as [->|He]);
      [..|by apply elem_of_nil in He];
      repeat (apply elem_of_cons in He' as [->|He']);
      try (by apply elem_of_nil in He');
      intros Heq; first [reflexivity | discriminate Heq].
  - exists s'. split; [exact Hstep|]. split; [exact Hlog|].
    split.
    + destruct (Hpts {| sel_cbpt := 1; sel_inner := false;
                        sel_oco := (5, 25, 0)%Z; sel_oco2D := Some (5, 25)%Z |})
        as (oco2D & [= <-] & Hpos); [|exact Hpos].
      vm_compute. apply list_elem_of_here.
    + destruct (Hpts {| sel_cbpt := 2; sel_inner := true;
                        sel_oco := (25, 5, 0)%Z; sel_oco2D := Some (25, 5)%Z |})
        as (oco2D & [= <-] & t & [= <-] & Hpos); [|exact Hpos].
      vm_compute. apply list_elem_of_further, list_elem_of_here.
Defined.

(** C5, at the failing input.  The session goes through the handlers
    alone, in a view that shows the part [x < 10] of the grid.  Control
    point 1 of strip 0 has a screen position and is hovered; on entry its
    inner neighbour, control point 2, is pulled into the edit set, and
    its snapshot holds no screen position, since [movehandle_enter]
    stores what [Point_to_Point2D] returns without the test for [None]
    that [main] and [draw_post2d] make.  The modal step passes its
    guards and applies the delta (-2, 0): it casts a ray for the outer
    point 1 and moves it to the hit, then raises [TypeError] at
    [oco2D + delta] of the inner point 2, which stays where it was; no
    strip is updated and the samples are not recomputed. *)
Theorem modal_handle_raises_at_unprojected_inner_point :
  (update_target ExampleView.host3_near 0 two_rows tool0).2 = None
  ∧ (main ExampleView.host3_near select_dist (press_at (3, 25)%Z)
       ExampleView.detected).2 = Some "move handle"
  ∧ movehandle_canenter ExampleView.hovered = true
  ∧ map curve (strips ExampleView.dragging) = [(1, 2, 3, 4); (6, 7, 8, 9)]
  ∧ hovering_handles ExampleView.dragging = [1]
  ∧ Point_to_Point2D ExampleView.host3_near (heap ExampleView.dragging 2) = None
  ∧ sel_cbpts ExampleView.dragging
    = [ {| sel_cbpt := 1; sel_inner := false;
           sel_oco := (5, 25, 0)%Z; sel_oco2D := Some (5, 25)%Z |};
        {| sel_cbpt := 2; sel_inner := true;
           sel_oco := (11, 25, 0)%Z; sel_oco2D := None |} ]
  ∧ pressed (pointer_at (1, 25)%Z) (move_done_pressed ExampleView.dragging) = false
  ∧ released (pointer_at (1, 25)%Z) (move_done_released ExampleView.dragging) = false
  ∧ pressed (pointer_at (1, 25)%Z) (move_cancelled ExampleView.dragging) = false
  ∧ num_is_zero ExampleView.host3_near
      (vec2_length ExampleView.host3_near
         (vec2_sub ExampleView.host3_near (mouse (pointer_at (1, 25)%Z))
            (mouselast ExampleView.dragging))) = false
  ∧ vec2_sub ExampleView.host3_near (mouse (pointer_at (1, 25)%Z))
      (mousedown ExampleView.dragging) = (-2, 0)%Z
  ∧ (modal_handle ExampleView.host3_near (pointer_at (1, 25)%Z)
       ExampleView.dragging).2 = Raise TypeError
  ∧ heap ExampleView.dragging 1 = (5, 25, 0)%Z
  ∧ heap ExampleView.dragged 1 = (3, 25, 0)%Z
  ∧ heap ExampleView.dragging 2 = (11, 25, 0)%Z
  ∧ heap ExampleView.dragged 2 = (11, 25, 0)%Z
  ∧ log ExampleView.dragged = log ExampleView.dragging ++ [EvRaycast (3, 25)%Z]
  ∧ strip_pts ExampleView.dragged = strip_pts ExampleView.dragging.
Proof.
  repeat apply conj; vm_compute; reflexivity.
Qed.

(** C6, at the failing input.  The session reaches the second drag
    through the handlers alone.  On entry, strip 0 is hovered at its outer
    point 1; its inner point 2 is pulled in; outer point 6 of strip 5 is
    at the position of point 2, so inner point 7 of strip 5 is pulled in
    and strip 5 is put in [mod_strips].  The modal step moves point 7 and
    updates strip 0 only. *)
Theorem modal_handle_skips_pulled_in_strip :
  map strip_id (strips dragging) = [0; 5]
  ∧ map curve (strips dragging) = [(1, 2, 3, 4); (6, 7, 8, 9)]
  ∧ heap dragging 2 = heap dragging 6
  ∧ (update_target host3 0 two_rows tool0).2 = None
  ∧ (main host3 select_dist (press_at (12, 25)%Z) detected).2 = Some "move handle"
  ∧ movehandle_canenter hovered1 = true
  ∧ (modal_handle host3 (pointer_at (26, 5)%Z) dragging1).2 = Ok None
  ∧ (modal_handle host3 (release_at (26, 5)%Z) dragged1).2 = Ok (Some "main")
  ∧ (main host3 select_dist (press_at (3, 25)%Z) released1).2 = Some "move handle"
  ∧ movehandle_canenter hovered = true
  ∧ hovering_handles dragging = [1]
  ∧ elements (hovering_strips dragging) = [0]
  ∧ 5 ∈ mod_strips dragging
  ∧ map sel_cbpt (sel_cbpts dragging) = [1; 2; 7]
  ∧ (modal_handle host3 (pointer_at (13, 25)%Z) dragging).2 = Ok None
  ∧ heap dragging 7 = (18, 5, 0)%Z
  ∧ heap dragged 7 = (28, 5, 0)%Z
  ∧ log dragged = log dragging ++ [EvRaycast (15, 25)%Z; EvUpdate 0].
Proof.
  repeat split; vm_compute; reflexivity.
Qed.

(** C7, counterexample: after detection control point 1 projects to
    (5, 25); with the pointer at (0, 25) its pixel distance 5 equals the
    selection distance 5, and the point is hovered. *)
Lemma hover_at_threshold_counterexample :
  Point_to_Point2D host3 (heap detected 1) = Some (5, 25)%Z
  ∧ vec2_length host3 (vec2_sub host3 (mouse (pointer_at (0, 25)%Z)) (5, 25)%Z)
    = drawing_scale host3 select_dist
  ∧ 1 ∈ hovering_handles (main host3 select_dist (pointer_at (0, 25)%Z) detected).1.
Proof.
  split; [by vm_compute|]. split; [by vm_compute|].
  vm_compute. apply list_elem_of_here.
Qed.

(** C7, witness: the same point, through the theorem. *)
Lemma hovering_handles_within_select_dist_witness :
  1 ∈ hovering_handles (main host3 select_dist (pointer_at (0, 25)%Z) detected).1.
Proof.
  destruct (hovering_handles_within_select_dist host3 select_dist
              (pointer_at (0, 25)%Z) detected) as [_ Hat].
  - intros x. simpl. rewrite Z.gtb_ltb. apply Z.ltb_irrefl.
  - apply (Hat {| strip_id := 0; strip_faces := [6; 7; 8]; curve := (1, 2, 3, 4) |}
             1 (5, 25)%Z).
    + vm_compute. apply list_elem_of_here.
    + apply list_elem_of_here.
    + by vm_compute.
    + by vm_compute.
Defined.

(** C8, witness: a target change during the drag. *)
Lemma update_target_during_move_handle_witness :
  update_target host3 0 bottom_row dragging = (dragging, None).
Proof.
  apply (update_target_during_move_handle host3 0 bottom_row dragging).
  reflexivity.
Defined.

Lemma detected_row_in_main : fsm_state detected_row ≠ "move handle".
Proof. intros Heq. vm_compute in Heq. discriminate. Qed.

Lemma no_quads_selected : quads_of host3 {[100]} = ∅.
Proof. apply (bool_decide_eq_true_1 _). vm_compute. reflexivity. Qed.

(** C9, witness: after the bottom row, a selection that holds one face
    that is not a quad. *)
Lemma no_quads_no_strips_witness :
  strips (update_target host3 0 {[100]} detected_row).1 = []
  ∧ (update_target host3 0 {[100]} detected_row).2 = None.
Proof.
  apply (no_quads_no_strips host3 0 {[100]} detected_row).
  - exact detected_row_in_main.
  - exact no_quads_selected.
Defined.

(** C10, witness: the samples of the bottom-row strip stay. *)
Lemma no_quads_keeps_strip_pts_witness :
  strips (update_target host3 0 {[100]} detected_row).1 = []
  ∧ length (strip_pts (update_target host3 0 {[100]} detected_row).1) = 1.
Proof.
  destruct (no_quads_keeps_strip_pts host3 0 {[100]} detected_row)
    as (Hstrips & Hpts & _).
  - exact detected_row_in_main.
  - exact no_quads_selected.
  - split; [exact Hstrips|]. rewrite Hpts. reflexivity.
Defined.

End Checks.

(** * Further properties of the detection pass *)

Section MoreDetectionProperties.

Context {Key : Type} `{Countable Key} {Pos P2 Num Vec Ray : Type}.
Variable host : Host Key Pos P2 Num Vec Ray.

Implicit Types (s : Tool Pos P2) (touched : gset Key) (bmquads junctions : gset nat).

(** *** The second pass *)

Lemma elem_of_boundaries_of bmquads bme bmf :
  (bme, bmf) ∈ boundaries_of host bmquads
  ↔ bmf ∈ bmquads ∧ bme ∈ edges host bmf
    ∧ is_boundaryedge host bme bmquads = true.
Proof.
  unfold boundaries_of. rewrite elem_of_list_to_set, list_elem_of_In, in_flat_map.
  split.
  - intros (f & Hf & Hin). apply in_map_iff in Hin as (e & [= -> ->] & He).
    apply filter_In in He as [He Hb].
    apply list_elem_of_In in Hf, He. apply elem_of_elements in Hf. done.
  - intros (Hf & He & Hb). exists bmf. split.
    + apply list_elem_of_In, elem_of_elements, Hf.
    + apply in_map_iff. exists bme. split; [done|].
      apply filter_In. split; [by apply list_elem_of_In|done].
Qed.

Lemma crawl_end_mono bmquads lo lo' hi hi' f :
  lo' ⊆ lo → hi ⊆ hi' →
  crawl_end host bmquads lo hi f → crawl_end host bmquads lo' hi' f.
Proof.
  intros Hlo Hhi (bme & bmf & bme_ & mid & strip & ? & ? & ? & ? & ? & ? & ? & ?).
  exists bme, bmf, bme_, mid, strip. repeat split; try done; set_solver.
Qed.

(** A fold whose steps only add crawl ends only adds crawl ends. *)
Lemma grow_fold {B} (step : gset nat → B → result (gset nat)) bmquads
    (l : list B) junctions junctions' :
  (∀ J b J1, b ∈ l → step J b = Ok J1 →
     J ⊆ J1 ∧ ∀ f, f ∈ J1 → f ∈ J ∨ crawl_end host bmquads J J1 f) →
  foldM step l junctions = Ok junctions' →
  junctions ⊆ junctions'
  ∧ ∀ f, f ∈ junctions' → f ∈ junctions ∨ crawl_end host bmquads junctions junctions' f.
Proof.
  revert junctions. induction l as [|b l IH]; intros J Hstep; simpl.
  - intros [= <-]. split; [done|]. by left.
  - destruct (step J b) as [J1|x] eqn:Hb; [|done]. simpl. intros Hfold.
    destruct (Hstep J b J1) as [Hsub1 Hend1]; [by left|done|].
    destruct (IH J1) as [Hsub Hend]; [|done|].
    { intros J0 b0 J2 Hb0. apply Hstep. by right. }
    split; [set_solver|]. intros f Hf.
    destruct (Hend f Hf) as [Hf1|Hc].
    + destruct (Hend1 f Hf1) as [?|Hc]; [by left|right].
      eapply crawl_end_mono; [| |exact Hc]; done.
    + right. eapply crawl_end_mono; [| |exact Hc]; done.
Qed.

Lemma second_pass_edge_grows bmquads bme bmf bme_ junctions junctions' :
  bmf ∈ bmquads → bme ∈ edges host bmf →
  is_boundaryedge host bme bmquads = true →
  bme_ ∈ neighbor_edges host bmf bme →
  second_pass_edge host bmquads bmf junctions bme_ = Ok junctions' →
  junctions ⊆ junctions'
  ∧ ∀ f, f ∈ junctions' → f ∈ junctions ∨ crawl_end host bmquads junctions junctions' f.
Proof.
  intros Hf He Hb Hn. unfold second_pass_edge.
  destruct (crawl_strip host bmf bme_ bmquads junctions) as [strip|] eqn:Hc.
  - destruct (list_last strip) as [bmf1|] eqn:Hlast; [|done].
    intros [= <-]. split; [set_solver|]. intros f.
    rewrite elem_of_union, elem_of_singleton. intros [->|?]; [right|by left].
    exists bme, bmf, bme_, junctions, strip. repeat split; try done. set_solver.
  - intros [= <-]. split; [done|]. by left.
Qed.

(** X1: the second pass never removes a junction, and every face it adds
    is the last face of a chain crawled from a selected face with a
    boundary edge, across a neighbour of that edge. *)
Theorem second_pass_adds_crawl_ends bmquads junctions junctions' :
  second_pass host bmquads junctions = Ok junctions' →
  junctions ⊆ junctions'
  ∧ ∀ f, f ∈ junctions' →
      f ∈ junctions
      ∨ ∃ bme bmf bme_ mid strip,
          bmf ∈ bmquads ∧ bme ∈ edges host bmf
          ∧ is_boundaryedge host bme bmquads = true
          ∧ bme_ ∈ neighbor_edges host bmf bme
          ∧ junctions ⊆ mid ∧ mid ⊆ junctions'
          ∧ crawl_strip host bmf bme_ bmquads mid = Some strip
          ∧ list_last strip = Some f.
Proof.
  unfold second_pass. apply grow_fold.
  intros J [bme bmf] J1 Hin Hstep.
  apply elem_of_iter_set, elem_of_boundaries_of in Hin as (Hf & He & Hb).
  unfold second_pass_boundary in Hstep.
  revert Hstep. apply grow_fold.
  intros J0 bme_ J2 Hn. by apply second_pass_edge_grows with bme.
Qed.

(** *** The cap as a bound *)

Lemma extract_strips_bound max_strips bmquads junctions js
    (st : gset Key * Tool Pos P2) :
  (0 < max_strips)%Z →
  (Z.of_nat (length (strips st.2)) ≤ max_strips)%Z →
  (Z.of_nat (length (strips (extract_strips host max_strips bmquads junctions js st).1))
   ≤ max_strips)%Z.
Proof.
  intros Hpos. revert st. induction js as [|bmf0 js IH]; intros st Hle; simpl.
  - done.
  - destruct (junction_strips host bmquads junctions bmf0 st) as [st'|e]; [|done].
    destruct (over_cap max_strips st'.2) eqn:Hcap; simpl; [lia|].
    apply IH. by apply over_cap_spec.
Qed.

(** X2: with a cap K > 0 the handler never leaves more than K strips,
    however the pass ends. *)
Theorem strips_within_cap max_strips selected s :
  fsm_state s ≠ "move handle" →
  (0 < max_strips)%Z →
  (Z.of_nat (length (strips (update_target host max_strips selected s).1))
   ≤ max_strips)%Z.
Proof.
  intros Hst Hpos.
  destruct (update_target_strips host max_strips selected s Hst) as [->|[junctions ->]].
  - simpl. lia.
  - apply extract_strips_bound; [done|]. simpl. lia.
Qed.

(** *** The ways a pass can go *)

Lemma update_target_cases max_strips selected s :
  fsm_state s ≠ "move handle" →
  (quads_of host selected = ∅
   ∧ update_target host max_strips selected s = (set_strips [] s, None))
  ∨ (quads_of host selected ≠ ∅
     ∧ ∃ e, update_target host max_strips selected s = (set_strips [] s, Some e))
  ∨ (quads_of host selected ≠ ∅
     ∧ ∃ j1 junctions,
         first_pass host (quads_of host selected) = Ok j1
         ∧ second_pass host (quads_of host selected) j1 = Ok junctions
         ∧ ∃ s1 x,
             extract_strips host max_strips (quads_of host selected) junctions
               (iter_set (order_junctions host) junctions) (∅, set_strips [] s)
             = (s1, x)
             ∧ update_target host max_strips selected s
               = match x with
                 | Some e => (s1, Some e)
                 | None => (update_strip_viz host s1, None)
                 end).
Proof.
  intros Hst. unfold update_target. rewrite (not_move_handle _ Hst).
  destruct (decide (quads_of host selected = ∅)) as [Hq|Hq]; [by left|].
  right. destruct (first_pass host (quads_of host selected)) as [j1|e] eqn:H1; simpl.
  - destruct (second_pass host (quads_of host selected) j1) as [junctions|e] eqn:H2.
    + right. split; [done|]. exists j1, junctions. repeat split; try done.
      destruct (extract_strips _ _ _ _ _ _) as [s1 x]. exists s1, x.
      split; [done|]. by destruct x.
    + left. split; [done|]. by exists e.
  - left. split; [done|]. by exists e.
Qed.

(** *** Where the strips come from *)

Lemma add_strip_origin bmquads junctions bmf0 bme (st : gset Key * Tool Pos P2) x :
  x ∈ strips (add_strip host bmquads junctions bmf0 bme st).2 →
  x ∈ strips st.2
  ∨ crawl_strip host bmf0 bme bmquads junctions = Some (strip_faces x).
Proof.
  destruct st as [touched s].
  destruct (add_strip_cases host bmquads junctions bmf0 bme touched s)
    as [->|(strip & bmf1 & st & Hc & _ & _ & _ & Hst & -> & Hs)]; [by left|].
  simpl. rewrite Hs. intros [? | ->%list_elem_of_singleton]%elem_of_app; [by left|].
  right. by rewrite Hst.
Qed.

Lemma junction_strips_origin bmquads junctions bmf0 (st st' : gset Key * Tool Pos P2) x :
  junction_strips host bmquads junctions bmf0 st = Ok st' →
  x ∈ strips st'.2 →
  x ∈ strips st.2
  ∨ ∃ bme, bme ∈ edges host bmf0
      ∧ is_boundaryedge host bme bmquads = false
      ∧ crawl_strip host bmf0 bme bmquads junctions = Some (strip_faces x).
Proof.
  unfold junction_strips.
  destruct (edges host bmf0) as [|bme0 [|bme1 [|bme2 [|bme3 [|]]]]]; try done.
  simpl. intros [= <-].
  set (edge0 := is_boundaryedge host bme0 bmquads).
  set (edge1 := is_boundaryedge host bme1 bmquads).
  set (edge2 := is_boundaryedge host bme2 bmquads).
  set (edge3 := is_boundaryedge host bme3 bmquads).
  assert (∀ (edge : bool) bme st0,
            edge = is_boundaryedge host bme bmquads →
            bme ∈ [bme0; bme1; bme2; bme3] →
            x ∈ strips (if edge then st0
                        else add_strip host bmquads junctions bmf0 bme st0).2 →
            x ∈ strips st0.2
            ∨ ∃ bme, bme ∈ [bme0; bme1; bme2; bme3]
                ∧ is_boundaryedge host bme bmquads = false
                ∧ crawl_strip host bmf0 bme bmquads junctions
                  = Some (strip_faces x)) as Hone.
  { intros edge bme st0 Hedge Hbme. destruct edge; [by left|].
    intros [?|Hc]%add_strip_origin; [by left|right]. by exists bme. }
  intros Hx.
  apply (Hone edge3 bme3) in Hx as [Hx|?]; [|by right|done|set_solver].
  apply (Hone edge2 bme2) in Hx as [Hx|?]; [|by right|done|set_solver].
  apply (Hone edge1 bme1) in Hx as [Hx|?]; [|by right|done|set_solver].
  apply (Hone edge0 bme0) in Hx as [Hx|?]; [|by right|done|set_solver].
  by left.
Qed.

Lemma extract_strips_origin max_strips bmquads junctions js
    (st : gset Key * Tool Pos P2) x :
  x ∈ strips (extract_strips host max_strips bmquads junctions js st).1 →
  x ∈ strips st.2
  ∨ ∃ bmf0 bme, bmf0 ∈ js ∧ bme ∈ edges host bmf0
      ∧ is_boundaryedge host bme bmquads = false
      ∧ crawl_strip host bmf0 bme bmquads junctions = Some (strip_faces x).
Proof.
  revert st. induction js as [|bmf0 js IH]; intros st; simpl.
  - by left.
  - destruct (junction_strips host bmquads junctions bmf0 st) as [st'|e] eqn:Hj;
      [|by left].
    destruct (over_cap max_strips st'.2); simpl.
    + by intros ?%elem_of_nil.
    + intros [Hx|(b & bme & ? & ?)]%IH.
      * destruct (junction_strips_origin _ _ _ _ _ _ Hj Hx) as [?|(bme & ?)];
          [by left|right].
        exists bmf0, bme. split; [by left|done].
      * right. exists b, bme. split; [by right|done].
Qed.

(** X3: outside the [move handle] state, every strip of the result is a
    chain [crawl_strip] returned when started in a junction of the two
    passes, across an edge of that junction that is not on the selection
    boundary. *)
Theorem strips_are_crawled_from_junctions max_strips selected s x :
  fsm_state s ≠ "move handle" →
  x ∈ strips (update_target host max_strips selected s).1 →
  ∃ j1 junctions bmf0 bme,
    first_pass host (quads_of host selected) = Ok j1
    ∧ second_pass host (quads_of host selected) j1 = Ok junctions
    ∧ bmf0 ∈ junctions
    ∧ bme ∈ edges host bmf0
    ∧ is_boundaryedge host bme (quads_of host selected) = false
    ∧ crawl_strip host bmf0 bme (quads_of host selected) junctions
      = Some (strip_faces x).
Proof.
  intros Hst.
  destruct (update_target_cases max_strips selected s Hst)
    as [[_ ->]|[[_ [e ->]]|[_ (j1 & junctions & H1 & H2 & s1 & o & Hx & ->)]]];
    simpl; [by intros ?%elem_of_nil..|].
  intros Hin.
  assert (x ∈ strips s1) as Hs1 by (by destruct o).
  replace s1 with
    (extract_strips host max_strips (quads_of host selected) junctions
       (iter_set (order_junctions host) junctions) (∅, set_strips [] s)).1 in Hs1
    by (by rewrite Hx).
  apply extract_strips_origin in Hs1
    as [?%elem_of_nil|(bmf0 & bme & Hj & He & Hb & Hc)]; [done|].
  apply elem_of_iter_set in Hj.
  by exists j1, junctions, bmf0, bme.
Qed.

(** *** The polyline samples after a pass *)

Lemma curve_samples_length s st : length (curve_samples host s st) = 11.
Proof.
  unfold curve_samples. destruct (curve st) as [[[p0 p1] p2] p3].
  by rewrite length_map, length_seq.
Qed.

(** X4: outside the [move handle] state, a pass over a selection with
    quads that ends without an exception leaves one polyline per strip,
    in the order of the strips, sampled at eleven parameters from the
    control points as they are. *)
Theorem completed_pass_samples_every_strip max_strips selected s :
  fsm_state s ≠ "move handle" →
  quads_of host selected ≠ ∅ →
  (update_target host max_strips selected s).2 = None →
  let s' := (update_target host max_strips selected s).1 in
  strip_pts s' = map (curve_samples host s') (strips s')
  ∧ length (strip_pts s') = length (strips s')
  ∧ ∀ pts, pts ∈ strip_pts s' → length pts = 11.
Proof.
  intros Hst Hq.
  destruct (update_target_cases max_strips selected s Hst)
    as [[? _]|[[_ [e ->]]|[_ (j1 & junctions & H1 & H2 & s1 & o & Hx & ->)]]];
    [done|done|].
  destruct o as [e|]; [done|]. intros _. simpl.
  repeat split.
  - by rewrite length_map.
  - intros pts (st & -> & _)%list_elem_of_fmap. apply curve_samples_length.
Qed.

(** *** What a pass leaves alone *)

Lemma detection_frame_refl s : detection_frame s s.
Proof. by repeat split. Qed.

Lemma detection_frame_trans s1 s2 s3 :
  detection_frame s1 s2 → detection_frame s2 s3 → detection_frame s1 s3.
Proof.
  intros (? & ? & ? & ? & ? & ? & ? & ? & ? & Hn12 & Hh12)
         (? & ? & ? & ? & ? & ? & ? & ? & ? & Hn23 & Hh23).
  repeat split; try congruence; [lia|].
  intros r Hr. rewrite Hh23 by lia. by apply Hh12.
Qed.

Lemma append_strip_frame strip s : detection_frame s (append_strip host strip s).
Proof.
  unfold append_strip. destruct (strip_curve host strip) as [[[c0 c1] c2] c3].
  repeat split; simpl; [lia|].
  intros r Hr. rewrite !fn_lookup_insert_ne by lia. done.
Qed.

Lemma add_strip_frame bmquads junctions bmf0 bme (st : gset Key * Tool Pos P2) :
  detection_frame st.2 (add_strip host bmquads junctions bmf0 bme st).2.
Proof.
  destruct st as [touched s].
  destruct (add_strip_cases host bmquads junctions bmf0 bme touched s)
    as [->|(strip & bmf1 & st & _ & _ & _ & _ & _ & -> & _)].
  - apply detection_frame_refl.
  - apply append_strip_frame.
Qed.

Lemma junction_strips_frame bmquads junctions bmf0 (st st' : gset Key * Tool Pos P2) :
  junction_strips host bmquads junctions bmf0 st = Ok st' →
  detection_frame st.2 st'.2.
Proof.
  unfold junction_strips.
  destruct (unpack4 (edges host bmf0)) as [[[[bme0 bme1] bme2] bme3]|]; [|done].
  destruct (unpack4 _) as [[[[edge0 edge1] edge2] edge3]|]; [|done].
  simpl. intros [= <-].
  assert (∀ (edge : bool) bme st0,
            detection_frame st0.2
              (if edge then st0
               else add_strip host bmquads junctions bmf0 bme st0).2) as Hone.
  { intros [] bme st0; [apply detection_frame_refl|apply add_strip_frame]. }
  eapply detection_frame_trans; [|apply Hone].
  eapply detection_frame_trans; [|apply Hone].
  eapply detection_frame_trans; [|apply Hone].
  apply Hone.
Qed.

Lemma set_strips_frame l s : detection_frame s (set_strips l s).
Proof. by repeat split. Qed.

Lemma extract_strips_frame max_strips bmquads junctions js
    (st : gset Key * Tool Pos P2) :
  detection_frame st.2 (extract_strips host max_strips bmquads junctions js st).1.
Proof.
  revert st. induction js as [|bmf0 js IH]; intros st; simpl.
  - apply detection_frame_refl.
  - destruct (junction_strips host bmquads junctions bmf0 st) as [st'|e] eqn:Hj;
      [|apply detection_frame_refl].
    apply junction_strips_frame in Hj.
    destruct (over_cap max_strips st'.2); simpl.
    + eapply detection_frame_trans; [exact Hj|apply set_strips_frame].
    + eapply detection_frame_trans; [exact Hj|apply IH].
Qed.

(** X5: in any state, on any selection and however it ends, the handler
    makes no call to the host that is logged (no raycast, capture,
    update or undo call), leaves the hover and drag attributes as they
    are, and moves no control point that existed before. *)
Theorem update_target_leaves_drag_state max_strips selected s :
  let s' := (update_target host max_strips selected s).1 in
  log s' = log s
  ∧ hovering_handles s' = hovering_handles s
  ∧ hovering_strips s' = hovering_strips s
  ∧ sel_cbpts s' = sel_cbpts s
  ∧ mod_strips s' = mod_strips s
  ∧ mousedown s' = mousedown s
  ∧ fsm_state s' = fsm_state s
  ∧ ∀ r, r ≤ next_obj s → heap s' r = heap s r.
Proof.
  assert (detection_frame s (update_target host max_strips selected s).1) as Hframe.
  { destruct (decide (fsm_state s = "move handle")) as [Hst|Hst].
    - unfold update_target. rewrite Hst. apply detection_frame_refl.
    - destruct (update_target_cases max_strips selected s Hst)
        as [[_ ->]|[[_ [e ->]]|[_ (j1 & junctions & H1 & H2 & s1 & o & Hx & ->)]]];
        [apply set_strips_frame..|].
      assert (detection_frame s s1) as Hs1.
      { eapply detection_frame_trans; [apply (set_strips_frame [])|].
        pose proof (extract_strips_frame max_strips (quads_of host selected)
                      junctions (iter_set (order_junctions host) junctions)
                      (∅, set_strips [] s)) as Hf.
        by rewrite Hx in Hf. }
      destruct o; [done|].
      eapply detection_frame_trans; [exact Hs1|]. by repeat split. }
  destruct Hframe as (? & ? & ? & ? & ? & ? & ? & ? & ? & ? & ?).
  by repeat split.
Qed.

End MoreDetectionProperties.

(** * Further properties of the [main] and [move handle] states *)

Section MoreInteractionProperties.

Context {Key Pos P2 Num Vec Ray : Type}.
Variable host : Host Key Pos P2 Num Vec Ray.

Implicit Types (s : Tool Pos P2) (a : Actions P2) (e : SelPt Pos P2).

(** *** Hovered strips *)

Lemma hover_point_strips select_dist a s sid acc cbpt x :
  x ∈ (hover_point host select_dist a s sid acc cbpt).2
  ↔ x ∈ acc.2 ∨ (x = sid ∧ within_select_dist host select_dist a s cbpt).
Proof.
  unfold hover_point, within_select_dist.
  destruct (Point_to_Point2D host (heap s cbpt)) as [v|].
  - destruct (num_gtb _ _ _) eqn:Hgt; simpl.
    + split; [by left|]. intros [?|[_ (v' & [= <-] & Hv')]]; [done|congruence].
    + rewrite elem_of_union, elem_of_singleton. split.
      * intros [-> | ?]; [right|by left]. split; [done|]. by exists v.
      * intros [?|[-> _]]; [by right|by left].
  - split; [by left|]. by intros [?|[_ (v' & ? & _)]].
Qed.

Lemma hover_points_strips select_dist a s sid pts acc x :
  x ∈ (fold_left (hover_point host select_dist a s sid) pts acc).2
  ↔ x ∈ acc.2
    ∨ (x = sid ∧ ∃ r, r ∈ pts ∧ within_select_dist host select_dist a s r).
Proof.
  revert acc. induction pts as [|cbpt pts IH]; intros acc; simpl.
  - split; [by left|]. by intros [?|[_ (r & ?%elem_of_nil & _)]].
  - rewrite IH, hover_point_strips. setoid_rewrite elem_of_cons. naive_solver.
Qed.

Lemma hover_strips_strips select_dist a s l acc x :
  x ∈ (fold_left (hover_strip host select_dist a s) l acc).2
  ↔ x ∈ acc.2
    ∨ ∃ st, st ∈ l ∧ strip_id st = x
        ∧ ∃ r, r ∈ curve_points st ∧ within_select_dist host select_dist a s r.
Proof.
  revert acc. induction l as [|st l IH]; intros acc; simpl.
  - split; [by left|]. by intros [?|(st & ?%elem_of_nil & _)].
  - rewrite IH. unfold hover_strip. rewrite hover_points_strips.
    setoid_rewrite elem_of_cons. naive_solver.
Qed.

Lemma main_hovering_strips select_dist a s :
  hovering_strips (main host select_dist a s).1 = (hover host select_dist a s).2.
Proof.
  unfold main. destruct (hover host select_dist a s) as [handles hstrips].
  repeat (match goal with |- context [if ?b then _ else _] => destruct b end);
    reflexivity.
Qed.

(** X6: after a tick of [main], the hovered strips are exactly the strips
    that own a hovered handle. *)
Theorem hovering_strips_own_hovered_handles select_dist a s sid :
  sid ∈ hovering_strips (main host select_dist a s).1
  ↔ ∃ st r, st ∈ strips s ∧ strip_id st = sid ∧ r ∈ curve_points st
      ∧ r ∈ hovering_handles (main host select_dist a s).1.
Proof.
  rewrite main_hovering_strips, main_hovering_handles. unfold hover.
  rewrite hover_strips_strips. simpl. split.
  - intros [?%not_elem_of_empty|(st & Hst & Hid & r & Hr & Hw)]; [done|].
    exists st, r. repeat split; try done.
    apply hover_strips_spec. right. by exists st.
  - intros (st & r & Hst & Hid & Hr & Hh). right.
    exists st. repeat split; try done. exists r. split; [done|].
    apply hover_strips_spec in Hh as [?%elem_of_nil|(st' & _ & _ & Hw)]; done.
Qed.

(** *** No strips, no handles *)

(** X7: after [reset], a tick of [main] hovers nothing, selects the
    brushstroke widget, cannot enter 'move handle', and returns what
    selection painting returns when select is pressed, else nothing. *)
Theorem main_after_reset_is_idle select_dist a s :
  let r := main host select_dist a (reset s) in
  hovering_handles r.1 = []
  ∧ hovering_strips r.1 = ∅
  ∧ rfwidget r.1 = "brushstroke"
  ∧ movehandle_canenter r.1 = false
  ∧ r.2 = if pressed a "select" || pressed a "select add"
          then selection_painting a else None.
Proof.
  unfold main, hover, reset. simpl.
  destruct (ctrl a && negb (shift a));
    destruct (pressed a "select" || pressed a "select add"); done.
Qed.

(** *** From [main] into 'move handle' *)

(** X8: when [main] asks for 'move handle' (and the name does not come
    from selection painting), the action was pressed over a hovered
    handle, so the state can be entered. *)
Theorem main_move_handle_can_enter select_dist a s :
  (main host select_dist a s).2 = Some "move handle" →
  selection_painting a ≠ Some "move handle" →
  pressed a "action" = true
  ∧ hovering_handles (main host select_dist a s).1 ≠ []
  ∧ movehandle_canenter (main host select_dist a s).1 = true.
Proof.
  intros Hret Hpaint.
  pose proof (main_hovering_handles host select_dist a s) as Hh.
  unfold movehandle_canenter. rewrite Hh. revert Hret. unfold main.
  destruct (hover host select_dist a s) as [[|r handles] hstrips]; simpl.
  - destruct (pressed a "select" || pressed a "select add"); [|done].
    intros Hret. by destruct Hpaint.
  - destruct (pressed a "action"); [done|].
    destruct (pressed a "action alt0"); [done|].
    destruct (pressed a "action alt1"); [done|].
    destruct (pressed a "select" || pressed a "select add"); [|done].
    intros Hret. by destruct Hpaint.
Qed.

(** *** Entering 'move handle' *)

Lemma fold_log_events {A} (f : A → Event P2) (l : list A) s :
  let s' := fold_left (λ s x, log_event (f x) s) l s in
  log s' = log s ++ map f l
  ∧ heap s' = heap s
  ∧ strip_pts s' = strip_pts s
  ∧ mouselast s' = mouselast s
  ∧ drag_frame s s'.
Proof.
  revert s. induction l as [|x l IH]; intros s; simpl.
  - rewrite app_nil_r. by repeat split.
  - destruct (IH (log_event (f x) s))
      as (-> & -> & -> & -> & ? & ? & ? & ? & ? & ? & ? & ? & ? & ? & ? & ?).
    simpl in *. rewrite <- app_assoc. by repeat split.
Qed.

Lemma point_in_self s r l : r ∈ l → point_in host s r l = true.
Proof.
  unfold point_in. induction 1 as [r l|r q l _ IH]; simpl.
  - by rewrite Nat.eqb_refl.
  - rewrite IH. by rewrite orb_true_r.
Qed.

Lemma enter_strip_spec s (acc : list nat * gset nat) st :
  ∃ pulled,
    (enter_strip host s acc st).1 = acc.1 ++ pulled
    ∧ (∀ x, x ∈ pulled →
         x ∈ inner_points st ∧ strip_id st ∈ (enter_strip host s acc st).2)
    ∧ acc.2 ⊆ (enter_strip host s acc st).2
    ∧ ∀ sid, sid ∈ (enter_strip host s acc st).2 → sid ∈ acc.2 ∨ sid = strip_id st.
Proof.
  unfold enter_strip, inner_points.
  destruct (curve st) as [[[p0 p1] p2] p3].
  destruct (point_in host s p0 acc.1 && negb (point_in host s p1 acc.1)); simpl;
    match goal with
    | |- context [if ?b then _ else _] => destruct b
    end; simpl.
  - exists [p1; p2]. rewrite <- app_assoc. repeat split; set_solver.
  - exists [p1]. repeat split; set_solver.
  - exists [p2]. repeat split; set_solver.
  - exists []. rewrite app_nil_r. repeat split; set_solver.
Qed.

Lemma enter_fold_spec s l (acc : list nat * gset nat) :
  ∃ pulled,
    (fold_left (enter_strip host s) l acc).1 = acc.1 ++ pulled
    ∧ (∀ x, x ∈ pulled →
         ∃ st, st ∈ l ∧ x ∈ inner_points st
           ∧ strip_id st ∈ (fold_left (enter_strip host s) l acc).2)
    ∧ acc.2 ⊆ (fold_left (enter_strip host s) l acc).2
    ∧ ∀ sid, sid ∈ (fold_left (enter_strip host s) l acc).2 →
        sid ∈ acc.2 ∨ ∃ st, st ∈ l ∧ strip_id st = sid.
Proof.
  revert acc. induction l as [|st l IH]; intros acc; simpl.
  - exists []. rewrite app_nil_r. repeat split; [by intros x ?%elem_of_nil|done|].
    by left.
  - destruct (enter_strip_spec s acc st) as (pulled0 & Heq0 & Hin0 & Hsub0 & Hown0).
    destruct (IH (enter_strip host s acc st)) as (pulled1 & Heq1 & Hin1 & Hsub1 & Hown1).
    exists (pulled0 ++ pulled1). repeat split.
    + by rewrite Heq1, Heq0, app_assoc.
    + intros x [Hx|Hx]%elem_of_app.
      * destruct (Hin0 x Hx) as [Hinner Hid]. exists st.
        split; [by left|]. split; [done|]. by apply Hsub1.
      * destruct (Hin1 x Hx) as (st' & ? & ? & ?). exists st'.
        split; [by right|done].
    + set_solver.
    + intros sid [Hsid|(st' & ? & ?)]%Hown1.
      * destruct (Hown0 sid Hsid) as [?| ->]; [by left|right].
        exists st. split; [by left|done].
      * right. exists st'. split; [by right|done].
Qed.

Lemma snapshot_heap s1 s inners cbpt :
  heap s1 = heap s → snapshot host s1 inners cbpt = snapshot host s inners cbpt.
Proof. intros Hh. unfold snapshot, point_in. by rewrite Hh. Qed.

(** The attributes [movehandle_enter] leaves, in terms of the local
    list [cbpts] and the set [mods] of its first loop. *)
Lemma movehandle_enter_fields a s :
  let acc := fold_left (enter_strip host s) (strips s)
               (hovering_handles s, ∅ ∪ hovering_strips s) in
  let s' := movehandle_enter host a s in
  mod_strips s' = acc.2
  ∧ sel_cbpts s' = map (snapshot host s (inners_of s)) acc.1
  ∧ log s' = log s ++ map EvCapture (iter_set (order_strips host) acc.2)
             ++ [EvUndoPush "manipulate bezier"]
  ∧ heap s' = heap s
  ∧ strips s' = strips s
  ∧ strip_pts s' = strip_pts s
  ∧ hovering_handles s' = hovering_handles s
  ∧ hovering_strips s' = hovering_strips s
  ∧ mousedown s' = mouse a
  ∧ mouselast s' = mouse a
  ∧ rfwidget s' = "move".
Proof.
  unfold movehandle_enter.
  destruct (fold_left (enter_strip host s) (strips s) _) as [cbpts mods]. simpl.
  destruct (fold_log_events EvCapture (iter_set (order_strips host) mods)
              (set_mod_strips mods s))
    as (Hlog & Hheap & Hpts & _ & _ & Hstrips & Hhh & Hhs & _ & Hmods & _).
  simpl in *. rewrite Hlog, Hheap, Hpts, Hstrips, Hhh, Hhs, Hmods.
  rewrite <- app_assoc. repeat split.
  unfold inners_of. rewrite Hstrips. apply map_ext. intros cbpt.
  by apply snapshot_heap.
Qed.

(** X9: the edit set starts with the hovered handles, in order; every
    point added to them is control point 1 or 2 of a strip that is put in
    [mod_strips]; [mod_strips] holds the hovered strips and otherwise only
    strips of the list; each entry records the position and the screen
    projection its point has on entry, and an entry for control point 1
    or 2 of a strip is flagged inner. *)
Theorem movehandle_enter_edit_set a s :
  let s' := movehandle_enter host a s in
  (∃ pulled,
     map sel_cbpt (sel_cbpts s') = hovering_handles s ++ pulled
     ∧ ∀ r, r ∈ pulled →
         ∃ st, st ∈ strips s ∧ r ∈ inner_points st ∧ strip_id st ∈ mod_strips s')
  ∧ hovering_strips s ⊆ mod_strips s'
  ∧ (∀ sid, sid ∈ mod_strips s' →
       sid ∈ hovering_strips s ∨ ∃ st, st ∈ strips s ∧ strip_id st = sid)
  ∧ (∀ e, e ∈ sel_cbpts s' →
       sel_oco e = heap s (sel_cbpt e)
       ∧ sel_oco2D e = Point_to_Point2D host (heap s (sel_cbpt e)))
  ∧ (∀ e st, e ∈ sel_cbpts s' → st ∈ strips s →
       sel_cbpt e ∈ inner_points st → sel_inner e = true).
Proof.
  destruct (movehandle_enter_fields a s) as (Hmods & Hsel & _).
  destruct (enter_fold_spec s (strips s) (hovering_handles s, ∅ ∪ hovering_strips s))
    as (pulled & Heq & Hin & Hsub & Hown).
  simpl in *. rewrite Hmods, Hsel. split; [|split; [|split; [|split]]].
  - exists pulled. split; [|done].
    rewrite <- Heq, map_map. simpl. apply map_id.
  - set_solver.
  - intros sid [Hsid|?]%Hown; [left; set_solver|by right].
  - by intros e (r & -> & _)%list_elem_of_fmap.
  - intros e st (r & -> & _)%list_elem_of_fmap Hst Hr. simpl in *.
    apply point_in_self. unfold inners_of.
    apply list_elem_of_In, in_flat_map. exists st.
    split; apply list_elem_of_In; done.
Qed.

(** X10: [movehandle_enter] calls [capture_edges] once on every strip of
    [mod_strips] and on no other, then pushes one undo checkpoint; it
    moves no control point and remembers the pointer as the origin of the
    drag. *)
Theorem movehandle_enter_captures_once a s :
  let s' := movehandle_enter host a s in
  (∃ l, log s' = log s ++ map EvCapture l ++ [EvUndoPush "manipulate bezier"]
        ∧ NoDup l ∧ ∀ sid, sid ∈ l ↔ sid ∈ mod_strips s')
  ∧ heap s' = heap s
  ∧ strips s' = strips s
  ∧ mousedown s' = mouse a
  ∧ mouselast s' = mouse a.
Proof.
  destruct (movehandle_enter_fields a s)
    as (Hmods & _ & Hlog & Hheap & Hstrips & _ & _ & _ & Hdown & Hlast & _).
  simpl in *. repeat split; try done.
  exists (iter_set (order_strips host) (mod_strips (movehandle_enter host a s))).
  rewrite Hmods. split; [done|]. split.
  - rewrite (iter_set_perm (order_strips host)). apply NoDup_elements.
  - intros sid. apply elem_of_iter_set.
Qed.

(** *** The modal step *)

Lemma drag_frame_refl s : drag_frame s s.
Proof. by repeat split. Qed.

Lemma drag_frame_trans s1 s2 s3 :
  drag_frame s1 s2 → drag_frame s2 s3 → drag_frame s1 s3.
Proof.
  intros (? & ? & ? & ? & ? & ? & ? & ? & ? & ? & ? & ?)
         (? & ? & ? & ? & ? & ? & ? & ? & ? & ? & ? & ?).
  repeat split; congruence.
Qed.

Lemma move_cbpt_frame delta s e s1 :
  move_cbpt host delta s e = Ok s1 →
  drag_frame s s1 ∧ strip_pts s1 = strip_pts s ∧ mouselast s1 = mouselast s.
Proof.
  unfold move_cbpt. destruct (sel_oco2D e) as [oco2D|]; [|done].
  destruct (sel_inner e); simpl.
  - destruct (num_div _ _ _); [|done]. intros [= <-]. by repeat split.
  - destruct (raycast_sources_Point2D _ _); intros [= <-]; by repeat split.
Qed.

Lemma move_cbpt_ok_movable delta s e s1 :
  move_cbpt host delta s e = Ok s1 → movable host delta e.
Proof.
  unfold move_cbpt, movable. destruct (sel_oco2D e) as [oco2D|]; [|done].
  intros Hmove. exists oco2D. split; [done|]. intros Hinner.
  rewrite Hinner in Hmove. simpl in Hmove.
  by destruct (num_div _ _ _).
Qed.

Lemma move_cbpt_raise_not_movable delta s e x :
  move_cbpt host delta s e = Raise x → ¬ movable host delta e.
Proof.
  intros Hraise Hmov. destruct (move_cbpt_total host delta s e Hmov) as [s1 Hok].
  congruence.
Qed.

(** The loop over the edit set, however it ends. *)
Lemma move_cbpts_any delta l s :
  let r := move_cbpts host delta l s in
  drag_frame s r.1
  ∧ strip_pts r.1 = strip_pts s
  ∧ mouselast r.1 = mouselast s
  ∧ (∀ p, p ∉ map sel_cbpt l → heap r.1 p = heap s p)
  ∧ match r.2 with
    | None => True
    | Some x =>
        ∃ done e rest,
          l = done ++ e :: rest
          ∧ (∀ d, d ∈ done → movable host delta d)
          ∧ ¬ movable host delta e
          ∧ log r.1 = log s ++ flat_map (raycast_of host delta) done
          ∧ ∀ p, p ∉ map sel_cbpt done → heap r.1 p = heap s p
    end.
Proof.
  revert s. induction l as [|e0 l IH]; intros s; simpl.
  - split; [apply drag_frame_refl|done].
  - destruct (move_cbpt host delta s e0) as [s1|x] eqn:Hmove; simpl.
    + destruct (move_cbpt_frame _ _ _ _ Hmove) as (Hf1 & Hp1 & Hm1).
      destruct (move_cbpt_spec host _ _ _ _ Hmove) as (Hlog1 & _ & Hfr1 & _).
      destruct (IH s1) as (Hf & Hp & Hm & Hfr & Hend).
      split; [by eapply drag_frame_trans|].
      split; [congruence|]. split; [congruence|]. split.
      * intros p [Hp0 Hpl]%not_elem_of_cons. rewrite Hfr by done. by apply Hfr1.
      * destruct (move_cbpts host delta l s1).2 as [x|]; [|done].
        destruct Hend as (done & e & rest & -> & Hdone & He & Hlog & Hfrd).
        exists (e0 :: done), e, rest. split; [done|]. split.
        -- intros d [->|?]%elem_of_cons; [|by apply Hdone].
           by eapply move_cbpt_ok_movable.
        -- split; [done|]. split.
           ++ simpl. by rewrite Hlog, Hlog1, app_assoc.
           ++ intros p [Hp0 Hpd]%not_elem_of_cons.
              rewrite Hfrd by done. by apply Hfr1.
    + split; [apply drag_frame_refl|]. repeat split; try done.
      exists [], e0, l. split; [done|]. split; [by intros d ?%elem_of_nil|].
      split; [by eapply move_cbpt_raise_not_movable|].
      simpl. by rewrite app_nil_r.
Qed.

Lemma update_strips_frame s :
  drag_frame s (update_strips host s)
  ∧ strip_pts (update_strips host s) = strip_pts s
  ∧ mouselast (update_strips host s) = mouselast s.
Proof.
  unfold update_strips.
  destruct (fold_log_events EvUpdate
              (iter_set (order_strips host) (hovering_strips s)) s)
    as (_ & _ & ? & ? & ?).
  done.
Qed.

(** A step that applies the delta, in terms of its loop. *)
Lemma modal_handle_moving a s :
  applies_delta host a s →
  modal_handle host a s
  = let r := move_cbpts host (vec2_sub host (mouse a) (mousedown s))
               (sel_cbpts s) (set_mouselast (mouse a) s) in
    match r.2 with
    | Some x => (r.1, Raise x)
    | None => (update_strip_viz host (update_strips host r.1), Ok None)
    end.
Proof.
  intros (Hp & Hr & Hc & Hz). unfold modal_handle. rewrite Hp, Hr, Hc, Hz. simpl.
  by destruct (move_cbpts _ _ _ _) as [s1 [x|]].
Qed.

Lemma modal_handle_drag_frame a s :
  drag_frame s (modal_handle host a s).1
  ∧ ∀ p, p ∉ map sel_cbpt (sel_cbpts s) →
      heap (modal_handle host a s).1 p = heap s p.
Proof.
  unfold modal_handle.
  destruct (pressed a (move_done_pressed s));
    [split; [apply drag_frame_refl|done]|].
  destruct (released a (move_done_released s));
    [split; [apply drag_frame_refl|done]|].
  destruct (pressed a (move_cancelled s)); [by repeat split|].
  destruct (num_is_zero _ _); [split; [apply drag_frame_refl|done]|].
  pose proof (move_cbpts_any (vec2_sub host (mouse a) (mousedown s))
                (sel_cbpts s) (set_mouselast (mouse a) s))
    as (Hf & _ & _ & Hfr & _).
  simpl in *.
  destruct (move_cbpts _ _ _ _) as [s1 [x|]]; simpl in *.
  - split; [|done]. eapply drag_frame_trans; [|exact Hf]. by repeat split.
  - destruct (update_strips_frame s1) as (Hu & _ & _).
    destruct (update_strips_log host s1) as [_ Hheap].
    split.
    + eapply drag_frame_trans; [|eapply drag_frame_trans; [exact Hu|]];
        [eapply drag_frame_trans; [|exact Hf]|]; by repeat split.
    + intros p Hp. rewrite Hheap. by apply Hfr.
Qed.

(** X11: whatever a modal step does and however it ends, it changes
    neither the strip list, nor the edit set, nor the hover sets, nor
    [mod_strips], nor the origin of the drag, and it moves no control
    point outside the edit set. *)
Theorem modal_handle_touches_edit_points_only a s :
  let s' := (modal_handle host a s).1 in
  strips s' = strips s
  ∧ sel_cbpts s' = sel_cbpts s
  ∧ hovering_handles s' = hovering_handles s
  ∧ hovering_strips s' = hovering_strips s
  ∧ mod_strips s' = mod_strips s
  ∧ mousedown s' = mousedown s
  ∧ ∀ p, p ∉ map sel_cbpt (sel_cbpts s) → heap s' p = heap s p.
Proof.
  destruct (modal_handle_drag_frame a s)
    as ((? & ? & ? & ? & ? & ? & ? & ?) & ?).
  by repeat split.
Qed.

(** X12: a modal step returns 'main' exactly when confirm is pressed, the
    action is released or cancel is pressed.  It then moves no control
    point, keeps the polyline samples, and calls [undo_cancel], once,
    only when cancel is pressed while confirm is not pressed and the
    action is not released. *)
Theorem modal_handle_ends_drag a s :
  let s' := (modal_handle host a s).1 in
  let confirm := pressed a (move_done_pressed s) in
  let release := released a (move_done_released s) in
  let cancel := pressed a (move_cancelled s) in
  ((modal_handle host a s).2 = Ok (Some "main")
   ↔ confirm || release || cancel = true)
  ∧ (confirm || release || cancel = true →
     heap s' = heap s
     ∧ strip_pts s' = strip_pts s
     ∧ mouselast s' = mouselast s
     ∧ log s' = log s ++ (if negb confirm && negb release then [EvUndoCancel]
                          else [])).
Proof.
  unfold modal_handle.
  destruct (pressed a (move_done_pressed s)); simpl.
  { rewrite app_nil_r. by repeat split. }
  destruct (released a (move_done_released s)); simpl.
  { rewrite app_nil_r. by repeat split. }
  destruct (pressed a (move_cancelled s)); simpl.
  { by repeat split. }
  split; [|done].
  destruct (num_is_zero _ _); [done|].
  by destruct (move_cbpts _ _ _ _) as [s1 [x|]].
Qed.

(** X13: when a modal step raises, some edit point could not be processed:
    the points before it in the edit set were processed (their raycasts
    are the only host calls of the step), no strip was updated and the
    polyline samples were not recomputed. *)
Theorem modal_handle_raise_is_partial a s x :
  (modal_handle host a s).2 = Raise x →
  let s' := (modal_handle host a s).1 in
  let delta := vec2_sub host (mouse a) (mousedown s) in
  ∃ done e rest,
    sel_cbpts s = done ++ e :: rest
    ∧ (∀ d, d ∈ done → movable host delta d)
    ∧ ¬ movable host delta e
    ∧ log s' = log s ++ flat_map (raycast_of host delta) done
    ∧ strip_pts s' = strip_pts s
    ∧ ∀ p, p ∉ map sel_cbpt done → heap s' p = heap s p.
Proof.
  unfold modal_handle.
  destruct (pressed a (move_done_pressed s)); [done|].
  destruct (released a (move_done_released s)); [done|].
  destruct (pressed a (move_cancelled s)); [done|].
  destruct (num_is_zero _ _); [done|].
  pose proof (move_cbpts_any (vec2_sub host (mouse a) (mousedown s))
                (sel_cbpts s) (set_mouselast (mouse a) s))
    as (_ & Hpts & _ & _ & Hend).
  simpl in *.
  destruct (move_cbpts host _ (sel_cbpts s) _) as [s1 [x'|]]; simpl in *; [|done].
  intros _. destruct Hend as (done & e & rest & Hl & Hdone & He & Hlog & Hfr).
  by exists done, e, rest.
Qed.

Lemma modal_handle_applied a s :
  applies_delta host a s →
  (modal_handle host a s).2 = Ok None →
  ∃ s1,
    move_cbpts host (vec2_sub host (mouse a) (mousedown s)) (sel_cbpts s)
      (set_mouselast (mouse a) s) = (s1, None)
    ∧ (modal_handle host a s).1 = update_strip_viz host (update_strips host s1).
Proof.
  intros Happ. rewrite (modal_handle_moving a s Happ). simpl.
  destruct (move_cbpts _ _ _ _) as [s1 [x|]]; simpl; [done|].
  intros _. by exists s1.
Qed.

(** X14: a step that applies the delta and completes leaves one polyline
    per strip, sampled at eleven parameters from the control points as
    the step left them, and remembers the pointer position. *)
Theorem modal_handle_resamples a s :
  applies_delta host a s →
  (modal_handle host a s).2 = Ok None →
  let s' := (modal_handle host a s).1 in
  strip_pts s' = map (curve_samples host s') (strips s')
  ∧ (∀ pts, pts ∈ strip_pts s' → length pts = 11)
  ∧ mouselast s' = mouse a.
Proof.
  intros Happ Hok.
  destruct (modal_handle_applied a s Happ Hok) as (s1 & Hloop & ->).
  pose proof (move_cbpts_any (vec2_sub host (mouse a) (mousedown s))
                (sel_cbpts s) (set_mouselast (mouse a) s)) as (_ & _ & Hlast & _).
  rewrite Hloop in Hlast.
  destruct (update_strips_frame s1) as (_ & _ & Hlast').
  simpl in *. repeat split.
  - intros pts (st & -> & _)%list_elem_of_fmap. apply curve_samples_length.
  - congruence.
Qed.

(** X15: positions are computed from the snapshot taken on entry and the
    pointer's offset from the press: after two completed steps an inner
    edit point, and an outer edit point whose raycast hits, are where a
    single step to the second pointer position would have put them. *)
Theorem drag_is_relative_to_press a1 a2 s :
  applies_delta host a1 s →
  applies_delta host a2 s →
  applies_delta host a2 (modal_handle host a1 s).1 →
  (modal_handle host a1 s).2 = Ok None →
  (modal_handle host a2 (modal_handle host a1 s).1).2 = Ok None →
  (modal_handle host a2 s).2 = Ok None →
  (∀ e e', e ∈ sel_cbpts s → e' ∈ sel_cbpts s →
     sel_cbpt e = sel_cbpt e' → e = e') →
  ∀ e, e ∈ sel_cbpts s →
    (sel_inner e = true
     ∨ ∃ oco2D xyz,
         sel_oco2D e = Some oco2D
         ∧ raycast_sources_Point2D host
             (vec2_add host oco2D (vec2_sub host (mouse a2) (mousedown s)))
           = Some xyz) →
    heap (modal_handle host a2 (modal_handle host a1 s).1).1 (sel_cbpt e)
    = heap (modal_handle host a2 s).1 (sel_cbpt e).
Proof.
  intros Happ1 Happ2 Happ21 Hok1 Hok21 Hok2 Hone e He Hcase.
  destruct (modal_handle_drag_frame a1 s)
    as ((_ & _ & _ & _ & Hsel & _ & Hdown & _) & _).
  destruct (modal_handle_applied _ _ Happ21 Hok21) as (s21 & Hloop21 & ->).
  destruct (modal_handle_applied _ _ Happ2 Hok2) as (s2 & Hloop2 & ->).
  rewrite Hsel, Hdown in Hloop21.
  destruct (move_cbpts_spec host _ _ _ _ Hloop21) as (_ & _ & Hmv21 & _).
  destruct (move_cbpts_spec host _ _ _ _ Hloop2) as (_ & _ & Hmv2 & _).
  destruct (update_strips_log host s21) as [_ Hh21].
  destruct (update_strips_log host s2) as [_ Hh2].
  simpl. rewrite Hh21, Hh2.
  destruct (Hmv21 Hone e He) as (o & Ho & Hnew21).
  destruct (Hmv2 Hone e He) as (o' & Ho' & Hnew2).
  rewrite Ho in Ho'. injection Ho' as <-. simpl in *.
  destruct (sel_inner e).
  - destruct Hnew21 as (t & Ht & ->). destruct Hnew2 as (t' & Ht' & ->).
    rewrite Ht in Ht'. by injection Ht' as <-.
  - destruct Hcase as [?|(o2 & xyz & Ho2 & Hray)]; [done|].
    rewrite Ho in Ho2. injection Ho2 as <-.
    rewrite Hray in Hnew21, Hnew2. congruence.
Qed.

End MoreInteractionProperties.

(** * Properties of the draw callbacks *)

Section DrawingProperties.

Context {Key : Type} `{Countable Key} {Pos P2 Num Vec Ray : Type}.
Variable host : Host Key Pos P2 Num Vec Ray.
Variable dhost : DrawHost Pos P2.

Implicit Types (s : Tool Pos P2) (st : Strip).

Lemma end_faces_is_Some st : strip_faces st ≠ [] → is_Some (end_faces st).
Proof.
  unfold end_faces. destruct (strip_faces st) as [|f l]; [done|]. intros _.
  assert (is_Some (list_last (f :: l))) as [bmf1 ->]; [|by eexists].
  clear. revert f. induction l as [|g l IH]; intros f; [by eexists|].
  apply (IH g).
Qed.

Lemma end_face_set_cons st l bmf0 bmf1 :
  end_faces st = Some (bmf0, bmf1) →
  end_face_set (st :: l) = {[bmf0; bmf1]} ∪ end_face_set l.
Proof.
  intros Hends. unfold end_face_set. simpl. rewrite Hends.
  rewrite list_to_set_app_L. simpl. set_solver.
Qed.

Lemma size_add_new (x : nat) (X : gset nat) :
  x ∉ X → size ({[x]} ∪ X) = S (size X).
Proof.
  intros Hx. rewrite size_union by set_solver. by rewrite size_singleton.
Qed.

(** One strip of the handle loop: the set of drawn faces gains the end
    faces of the strip, the outer list one point per face gained, the
    inner list two points. *)
Lemma draw_strip_spec s st faces_drawn pts_outer pts_inner bmf0 bmf1 :
  end_faces st = Some (bmf0, bmf1) →
  ∃ faces_drawn' pts_outer' pts_inner',
    draw_strip host s (faces_drawn, pts_outer, pts_inner) st
    = Ok (faces_drawn', pts_outer', pts_inner')
    ∧ faces_drawn' = {[bmf0; bmf1]} ∪ faces_drawn
    ∧ length pts_outer' + size faces_drawn = length pts_outer + size faces_drawn'
    ∧ length pts_inner' = length pts_inner + 2.
Proof.
  intros Hends. unfold draw_strip. rewrite Hends.
  destruct (curve st) as [[[p0 p1] p2] p3].
  destruct (bool_decide (bmf0 ∈ faces_drawn)) eqn:H0.
  - apply bool_decide_eq_true in H0.
    destruct (bool_decide (bmf1 ∈ faces_drawn)) eqn:H1.
    + apply bool_decide_eq_true in H1.
      eexists _, _, _. split; [done|]. rewrite length_app. simpl.
      split; [set_solver|]. split; [|lia].
      replace ({[bmf0; bmf1]} ∪ faces_drawn) with faces_drawn by set_solver. lia.
    + apply bool_decide_eq_false in H1.
      eexists _, _, _. split; [done|]. rewrite !length_app. simpl.
      split; [set_solver|]. split; [|lia].
      replace ({[bmf0; bmf1]} ∪ faces_drawn) with ({[bmf1]} ∪ faces_drawn)
        by set_solver.
      rewrite size_add_new by done. lia.
  - apply bool_decide_eq_false in H0.
    destruct (bool_decide (bmf1 ∈ {[bmf0]} ∪ faces_drawn)) eqn:H1.
    + apply bool_decide_eq_true in H1.
      eexists _, _, _. split; [done|]. rewrite !length_app. simpl.
      split; [set_solver|]. split; [|lia].
      replace ({[bmf0; bmf1]} ∪ faces_drawn) with ({[bmf0]} ∪ faces_drawn)
        by set_solver.
      rewrite size_add_new by done. lia.
    + apply bool_decide_eq_false in H1.
      eexists _, _, _. split; [done|]. rewrite !length_app. simpl.
      split; [set_solver|]. split; [|lia].
      replace ({[bmf0; bmf1]} ∪ faces_drawn)
        with ({[bmf1]} ∪ ({[bmf0]} ∪ faces_drawn)) by set_solver.
      rewrite size_add_new by done. rewrite size_add_new by done. lia.
Qed.

Lemma draw_strips_spec s l faces_drawn pts_outer pts_inner :
  (∀ st, st ∈ l → strip_faces st ≠ []) →
  ∃ faces_drawn' pts_outer' pts_inner',
    foldM (draw_strip host s) l (faces_drawn, pts_outer, pts_inner)
    = Ok (faces_drawn', pts_outer', pts_inner')
    ∧ faces_drawn' = end_face_set l ∪ faces_drawn
    ∧ length pts_outer' + size faces_drawn = length pts_outer + size faces_drawn'
    ∧ length pts_inner' = length pts_inner + 2 * length l.
Proof.
  revert faces_drawn pts_outer pts_inner.
  induction l as [|st l IH]; intros faces_drawn pts_outer pts_inner Hne; simpl.
  - eexists _, _, _. split; [done|]. unfold end_face_set. simpl.
    split; [set_solver|]. split; lia.
  - destruct (end_faces_is_Some st) as [[bmf0 bmf1] Hends].
    { apply Hne. by left. }
    destruct (draw_strip_spec s st faces_drawn pts_outer pts_inner bmf0 bmf1 Hends)
      as (fd1 & po1 & pi1 & -> & Hfd1 & Hpo1 & Hpi1).
    destruct (IH fd1 po1 pi1) as (fd2 & po2 & pi2 & Hfold & Hfd2 & Hpo2 & Hpi2).
    { intros st' Hst'. apply Hne. by right. }
    simpl. exists fd2, po2, pi2. split; [done|].
    rewrite (end_face_set_cons st l bmf0 bmf1 Hends).
    split; [set_solver|]. split; lia.
Qed.

(** X16: with no strips [draw_post3d_spline] draws nothing.  Otherwise,
    when every strip has a face, it does not raise and hands over four
    line points and two inner handles per strip, and one outer handle for
    every face at which a strip ends, however many strips end there. *)
Theorem draw_post3d_spline_handles s :
  (∀ st, st ∈ strips s → strip_faces st ≠ []) →
  match draw_post3d_spline host s with
  | None => strips s = []
  | Some (pts, Ok (pts_outer, pts_inner)) =>
      strips s ≠ []
      ∧ length pts = 4 * length (strips s)
      ∧ length pts_inner = 2 * length (strips s)
      ∧ length pts_outer = size (end_face_set (strips s))
  | Some (_, Raise _) => False
  end.
Proof.
  intros Hne. unfold draw_post3d_spline.
  destruct (strips s) as [|st0 l] eqn:Hstrips; [done|].
  change (nonempty (st0 :: l)) with true. cbv iota.
  destruct (draw_strips_spec s (st0 :: l) ∅ [] [] Hne)
    as (fd & po & pi & -> & Hfd & Hpo & Hpi).
  rewrite size_empty in Hpo. rewrite union_empty_r_L in Hfd. subst fd.
  split; [done|]. split; [|split].
  - rewrite flat_map_constant_length with (c := 4); [lia|].
    intros st _. rewrite length_map. unfold curve_points.
    by destruct (curve st) as [[[p0 p1] p2] p3].
  - rewrite Hpi. simpl. lia.
  - simpl in Hpo. lia.
Qed.

Lemma length_omap_le {A B} (f : A → option B) (l : list A) :
  length (omap f l) ≤ length l.
Proof.
  induction l as [|x l IH]; simpl; [done|].
  change (list_omap A B f l) with (omap f l). destruct (f x); simpl; lia.
Qed.

Lemma strip_label_spec st c pos :
  strip_label host dhost st = Some (c, pos) →
  c = length (strip_faces st)
  ∧ ∃ f, f ∈ strip_faces st
      ∧ is_Some (Point_to_Point2D host (face_center dhost f)).
Proof.
  unfold strip_label.
  destruct (omap _ (strip_faces st)) as [|v vs] eqn:Hvs; simpl; [done|].
  intros [= <- _]. split; [done|].
  assert (v ∈ omap (λ f, Point_to_Point2D host (face_center dhost f))
                (strip_faces st)) as Hv by (rewrite Hvs; by left).
  apply list_elem_of_omap in Hv as (f & Hf & Hp). exists f. split; [done|by eexists].
Qed.

Lemma strip_label_visible st f :
  f ∈ strip_faces st →
  is_Some (Point_to_Point2D host (face_center dhost f)) →
  ∃ pos, strip_label host dhost st = Some (length (strip_faces st), pos).
Proof.
  intros Hf [v Hv]. unfold strip_label.
  assert (v ∈ omap (λ f, Point_to_Point2D host (face_center dhost f))
                (strip_faces st)) as Hin.
  { apply list_elem_of_omap. by exists f. }
  destruct (omap _ (strip_faces st)) as [|v0 vs]; [by apply elem_of_nil in Hin|].
  simpl. by eexists.
Qed.

(** X17: [draw_post2d] writes at most one label per strip: a strip with a
    face whose centre has a screen projection gets a label showing its
    number of faces, and every label belongs to such a strip; a strip
    none of whose face centres projects is passed over. *)
Theorem draw_post2d_labels_visible_strips s :
  length (draw_post2d host dhost s) ≤ length (strips s)
  ∧ (∀ c pos, (c, pos) ∈ draw_post2d host dhost s →
       ∃ st, st ∈ strips s ∧ c = length (strip_faces st)
         ∧ ∃ f, f ∈ strip_faces st
             ∧ is_Some (Point_to_Point2D host (face_center dhost f)))
  ∧ (∀ st f, st ∈ strips s → f ∈ strip_faces st →
       is_Some (Point_to_Point2D host (face_center dhost f)) →
       ∃ pos, (length (strip_faces st), pos) ∈ draw_post2d host dhost s)
  ∧ (∀ st, st ∈ strips s →
       (∀ f, f ∈ strip_faces st →
          Point_to_Point2D host (face_center dhost f) = None) →
       strip_label host dhost st = None).
Proof.
  unfold draw_post2d. split; [apply length_omap_le|]. split; [|split].
  - intros c pos (st & Hst & Hlabel)%list_elem_of_omap.
    destruct (strip_label_spec st c pos Hlabel) as [-> Hf]. by exists st.
  - intros st f Hst Hf Hvis.
    destruct (strip_label_visible st f Hf Hvis) as [pos Hpos].
    exists pos. apply list_elem_of_omap. by exists st.
  - intros st _ Hnone.
    destruct (strip_label host dhost st) as [[c pos]|] eqn:Hlabel; [|done].
    destruct (strip_label_spec st c pos Hlabel) as (_ & f & Hf & [v Hv]).
    rewrite (Hnone f Hf) in Hv. done.
Qed.

(** The chains of a detection result have at least two faces. *)
Lemma update_target_chains max_strips selected s st :
  fsm_state s ≠ "move handle" →
  st ∈ strips (update_target host max_strips selected s).1 →
  2 ≤ length (strip_faces st).
Proof.
  intros Hst.
  destruct (update_target_strips host max_strips selected s Hst) as [->|[junctions ->]].
  { by intros ?%elem_of_nil. }
  destruct (extract_strips_inv host (quads_of host selected) junctions
              (λ _ l, Forall (λ st, 2 ≤ length (strip_faces st)) l))
    with (max_strips := max_strips)
         (js := iter_set (order_junctions host) junctions)
         (st := (∅ : gset Key, set_strips [] s)) as [_ HI].
  - intros bmf0 bme strip bmf1 st' touched l Hl _ _ Hlen _ Hf.
    apply Forall_app. split; [done|]. constructor; [|constructor]. rewrite Hf. lia.
  - by constructor.
  - by constructor.
  - intros Hin. rewrite list.Forall_forall in HI. by apply HI.
Qed.

(** X18: after a detection pass the draw callbacks are safe: the handle
    callback does not raise, and every label of the text callback shows a
    face count of at least two. *)
Theorem draw_after_detection max_strips selected s :
  fsm_state s ≠ "move handle" →
  let s' := (update_target host max_strips selected s).1 in
  (∀ pts x, draw_post3d_spline host s' ≠ Some (pts, Raise x))
  ∧ ∀ c pos, (c, pos) ∈ draw_post2d host dhost s' → 2 ≤ c.
Proof.
  intros Hst. simpl. split.
  - intros pts x Hdraw.
    assert (∀ st, st ∈ strips (update_target host max_strips selected s).1 →
                  strip_faces st ≠ []) as Hne.
    { intros st Hin Hnil.
      pose proof (update_target_chains _ _ _ _ Hst Hin) as Hlen.
      rewrite Hnil in Hlen. simpl in Hlen. lia. }
    destruct (draw_strips_spec (update_target host max_strips selected s).1
                (strips (update_target host max_strips selected s).1) ∅ [] [] Hne)
      as (fd & po & pi & Hfold & _).
    unfold draw_post3d_spline in Hdraw.
    destruct (nonempty _); [|done]. rewrite Hfold in Hdraw. done.
  - intros c pos (st & Hin & Hlabel)%list_elem_of_omap.
    destruct (strip_label_spec st c pos Hlabel) as [-> _].
    by eapply update_target_chains.
Qed.

End DrawingProperties.

(** * The further properties on the concrete host *)

Module MoreChecks.
Import Example.

Lemma second_pass_adds_crawl_ends_witness :
  ∃ junctions,
    second_pass host3 bottom_row {[0; 2]} = Ok junctions
    ∧ ({[0; 2]} : gset nat) ⊆ junctions.
Proof.
  destruct (second_pass host3 bottom_row {[0; 2]}) as [junctions|x] eqn:Hpass;
    [|by vm_compute in Hpass].
  exists junctions. split; [done|].
  exact (proj1 (second_pass_adds_crawl_ends host3 bottom_row {[0; 2]} junctions Hpass)).
Defined.

Lemma strips_within_cap_witness :
  (Z.of_nat (length (strips (update_target host3 2 two_rows tool0).1)) ≤ 2)%Z.
Proof.
  apply (strips_within_cap host3 2 two_rows tool0).
  - discriminate.
  - lia.
Defined.

Lemma strips_are_crawled_from_junctions_witness :
  ∃ j1 junctions bmf0 bme,
    first_pass host3 (quads_of host3 bottom_row) = Ok j1
    ∧ second_pass host3 (quads_of host3 bottom_row) j1 = Ok junctions
    ∧ bmf0 ∈ junctions
    ∧ bme ∈ edges host3 bmf0
    ∧ is_boundaryedge host3 bme (quads_of host3 bottom_row) = false
    ∧ crawl_strip host3 bmf0 bme (quads_of host3 bottom_row) junctions
      = Some [2; 1; 0].
Proof.
  apply (strips_are_crawled_from_junctions host3 0 bottom_row tool0
           {| strip_id := 0; strip_faces := [2; 1; 0]; curve := (1, 2, 3, 4) |}).
  - discriminate.
  - vm_compute. apply list_elem_of_here.
Defined.

Lemma two_rows_has_quads : quads_of host3 two_rows ≠ ∅.
Proof.
  intros Hq. assert (0 ∈ quads_of host3 two_rows) as Hin.
  { apply (bool_decide_eq_true_1 _). vm_compute. reflexivity. }
  rewrite Hq in Hin. by apply not_elem_of_empty in Hin.
Qed.

Lemma completed_pass_samples_every_strip_witness :
  length (strip_pts (update_target host3 0 two_rows tool0).1)
  = length (strips (update_target host3 0 two_rows tool0).1).
Proof.
  destruct (completed_pass_samples_every_strip host3 0 two_rows tool0)
    as (_ & Hlen & _).
  - discriminate.
  - exact two_rows_has_quads.
  - vm_compute. reflexivity.
  - exact Hlen.
Defined.

Lemma main_move_handle_can_enter_witness :
  pressed (press_at (3, 25)%Z) "action" = true
  ∧ hovering_handles (main host3 select_dist (press_at (3, 25)%Z) released1).1 ≠ []
  ∧ movehandle_canenter (main host3 select_dist (press_at (3, 25)%Z) released1).1
    = true.
Proof.
  apply (main_move_handle_can_enter host3 select_dist (press_at (3, 25)%Z) released1).
  - vm_compute. reflexivity.
  - discriminate.
Defined.

Lemma modal_handle_raise_is_partial_witness :
  ∃ done e rest,
    sel_cbpts ExampleDraw.lifted_dragging = done ++ e :: rest
    ∧ log (modal_handle host3 (pointer_at (13, 25)%Z) ExampleDraw.lifted_dragging).1
      = log ExampleDraw.lifted_dragging
        ++ flat_map (raycast_of host3
                       (vec2_sub host3 (mouse (pointer_at (13, 25)%Z))
                          (mousedown ExampleDraw.lifted_dragging))) done
    ∧ strip_pts (modal_handle host3 (pointer_at (13, 25)%Z)
                   ExampleDraw.lifted_dragging).1
      = strip_pts ExampleDraw.lifted_dragging.
Proof.
  destruct (modal_handle_raise_is_partial host3 (pointer_at (13, 25)%Z)
              ExampleDraw.lifted_dragging TypeError)
    as (before & e & rest & Hl & _ & _ & Hlog & Hpts & _).
  - vm_compute. reflexivity.
  - exists before, e, rest. split; [exact Hl|]. split; [exact Hlog|exact Hpts].
Defined.

Lemma modal_handle_resamples_witness :
  length (strip_pts (modal_handle host3 (pointer_at (13, 25)%Z) dragging).1) = 2
  ∧ mouselast (modal_handle host3 (pointer_at (13, 25)%Z) dragging).1 = (13, 25)%Z.
Proof.
  destruct (modal_handle_resamples host3 (pointer_at (13, 25)%Z) dragging)
    as (Hpts & _ & Hlast).
  - repeat split; vm_compute; reflexivity.
  - vm_compute. reflexivity.
  - split; [|exact Hlast]. rewrite Hpts, length_map. vm_compute. reflexivity.
Defined.

Lemma drag_is_relative_to_press_witness :
  heap (modal_handle host3 (pointer_at (20, 25)%Z)
          (modal_handle host3 (pointer_at (13, 25)%Z) dragging).1).1 2
  = heap (modal_handle host3 (pointer_at (20, 25)%Z) dragging).1 2.
Proof.
  apply (drag_is_relative_to_press host3 (pointer_at (13, 25)%Z)
           (pointer_at (20, 25)%Z) dragging)
    with (e := {| sel_cbpt := 2; sel_inner := true;
                  sel_oco := (25, 5, 0)%Z; sel_oco2D := Some (25, 5)%Z |}).
  - repeat split; vm_compute; reflexivity.
  - repeat split; vm_compute; reflexivity.
  - repeat split; vm_compute; reflexivity.
  - vm_compute. reflexivity.
  - vm_compute. reflexivity.
  - vm_compute. reflexivity.
  - intros e e' He He'. vm_compute in He, He'.
    repeat (apply elem_of_cons in He as [->|He]);
      [..|by apply elem_of_nil in He];
      repeat (apply elem_of_cons in He' as [->|He']);
      try (by apply elem_of_nil in He');
      intros Heq; first [reflexivity | discriminate Heq].
  - vm_compute. apply list_elem_of_further, list_elem_of_here.
  - by left.
Defined.

Lemma draw_post3d_spline_handles_witness :
  match draw_post3d_spline host3 ExampleDraw.detected_plus with
  | None => strips ExampleDraw.detected_plus = []
  | Some (pts, Ok (pts_outer, pts_inner)) =>
      strips ExampleDraw.detected_plus ≠ []
      ∧ length pts = 4 * length (strips ExampleDraw.detected_plus)
      ∧ length pts_inner = 2 * length (strips ExampleDraw.detected_plus)
      ∧ length pts_outer = size (end_face_set (strips ExampleDraw.detected_plus))
  | Some (_, Raise _) => False
  end.
Proof.
  apply (draw_post3d_spline_handles host3 ExampleDraw.detected_plus).
  intros st Hst. vm_compute in Hst.
  repeat (apply elem_of_cons in Hst as [->|Hst]);
    [..|by apply elem_of_nil in Hst]; discriminate.
Defined.

Lemma draw_after_detection_witness :
  (∀ pts x, draw_post3d_spline host3 ExampleDraw.detected_plus ≠ Some (pts, Raise x))
  ∧ ∀ c pos,
      (c, pos) ∈ draw_post2d host3 ExampleDraw.draw3 ExampleDraw.detected_plus →
      2 ≤ c.
Proof.
  apply (draw_after_detection host3 ExampleDraw.draw3 0 ExampleDraw.plus tool0).
  discriminate.
Defined.

End MoreChecks.
